(** * SUB tree viewer: tree build, selection and session synchronisation

    A shallow embedding of [frontend/static/js/sub.js].  The script keeps two
    module-level variables ([currentTree], [currentSelectedId]), rebuilds the
    visual tree from the flat node list on every render, and talks to the
    server through [fetch].  JavaScript values are embedded as a small sum
    type, the [childMap] object as a finite map with string keys (property
    keys are strings: a number used as a key is converted with [ToString]),
    exceptions as an explicit outcome, and network replies as inputs of the
    asynchronous functions. *)

From Stdlib Require Import ZArith QArith Qminmax List Lia Ascii String Sorted Permutation.
From stdpp Require Import base option list gmap strings pretty sorting.

Local Open Scope string_scope.
Local Open Scope Z_scope.
Local Open Scope list_scope.

(** ** JavaScript values *)

Module Js.

(** The identifiers and text fields that travel in the JSON payloads:
    [undefined], [null], strings, and numbers that are integers of the range
    a double holds exactly (where [String] gives the decimal digits). *)
Inductive value : Type :=
| Undefined
| Null
| Num (z : Z)
| Str (s : string).

#[global] Instance value_eq_dec : EqDecision value.
Proof. solve_decision. Defined.

(** [String(v)], also the conversion applied to a property key and to a
    value stored in [element.dataset]. *)
Definition ToString (v : value) : string :=
  match v with
  | Undefined => "undefined"
  | Null => "null"
  | Num z => pretty z
  | Str s => s
  end.

(** [!!v] *)
Definition truthy (v : value) : bool :=
  match v with
  | Undefined | Null => false
  | Num z => negb (z =? 0)
  | Str s => negb (String.eqb s "")
  end.

(** [v === null || v === undefined], which is also [v == null]. *)
Definition nullish (v : value) : bool :=
  match v with
  | Undefined | Null => true
  | _ => false
  end.

(** Exceptions the script can meet. *)
Inductive error : Type :=
| TypeError      (* member access on undefined, call of a non-function *)
| RangeError     (* maximum call stack size exceeded *)
| FetchError     (* rejected fetch, or a body that cannot be read *)
| HttpError.     (* [throw new Error(...)] after a non-2xx status *)

Inductive outcome (A : Type) : Type :=
| Ret (a : A)
| Throw (e : error).
Arguments Ret {A} a.
Arguments Throw {A} e.

Definition bind {A B} (x : outcome A) (k : A -> outcome B) : outcome B :=
  match x with
  | Ret a => k a
  | Throw e => Throw e
  end.

(** Numbers produced by [Number(text)].  [Int z] is the exact integer [z];
    [NumberOf src] stands for the double [Number(src)] of a text outside
    the integer fragment recognised below (fractions, exponents, other
    radices, infinities, negative zero, not-a-number). *)
Inductive number : Type :=
| Int (z : Z)
| NumberOf (src : string).

#[global] Instance number_eq_dec : EqDecision number.
Proof. solve_decision. Defined.

Definition is_space (a : ascii) : bool :=
  let n := nat_of_ascii a in
  ((9 <=? n)%nat && (n <=? 13)%nat) || (n =? 32)%nat.

Fixpoint trim_start (s : string) : string :=
  match s with
  | String a r => if is_space a then trim_start r else s
  | EmptyString => EmptyString
  end.

(** [s.trim()] restricted to the ASCII white space and line terminators. *)
Definition trim (s : string) : string :=
  String.rev (trim_start (String.rev (trim_start s))).

Definition digit (a : ascii) : option Z :=
  let n := nat_of_ascii a in
  if ((48 <=? n)%nat && (n <=? 57)%nat)%bool then Some (Z.of_nat (n - 48)) else None.

Fixpoint digits (acc : Z) (s : string) : option Z :=
  match s with
  | EmptyString => Some acc
  | String a r =>
      match digit a with
      | Some d => digits (10 * acc + d) r
      | None => None
      end
  end.

Definition unsigned_int (s : string) : option Z :=
  match s with
  | EmptyString => None
  | _ => digits 0 s
  end.

Definition safe (z : Z) : bool := Z.abs z <=? 2 ^ 53.

(** [Number(s)]: white space is stripped, the empty text is [0], a decimal
    integer literal with an optional sign is its value. *)
Definition Number (s : string) : number :=
  match trim s with
  | EmptyString => Int 0
  | String "+" r =>
      match unsigned_int r with
      | Some z => if safe z then Int z else NumberOf s
      | None => NumberOf s
      end
  | String "-" r =>
      match unsigned_int r with
      | Some z => if safe z && negb (z =? 0) then Int (- z) else NumberOf s
      | None => NumberOf s
      end
  | t =>
      match unsigned_int t with
      | Some z => if safe z then Int z else NumberOf s
      | None => NumberOf s
      end
  end.

End Js.

Import Js.

Notation "'let*' x := c1 'in' c2" := (Js.bind c1 (fun x => c2))
  (at level 10, x name, c1 at level 100, c2 at level 200).

(** ** Data model *)

(** One element of [currentTree.nodes].  [order] is [None] when the field is
    [null] or missing and an integer otherwise; [qty] is [None] when [null]
    or missing. *)
Record Node : Type := mkNode {
  id : value;
  parent_id : value;
  order : option Z;
  name : value;
  type : value;
  vehicle : value;
  material : value;
  qty : option number
}.

#[global] Instance Node_eq_dec : EqDecision Node.
Proof. solve_decision. Defined.

(** [currentTree]: [nodes] is [None] when the field is not an array. *)
Record Tree : Type := mkTree {
  sub_name : value;
  nodes : option (list Node)
}.

(** ** Tree build: the [childMap] object *)

(** Property names every object literal inherits from [Object.prototype],
    with the [length] of the inherited value ([None]: no [length]). *)
Definition inherited (k : string) : option (option nat) :=
  if String.eqb k "constructor" then Some (Some 1%nat)
  else if String.eqb k "hasOwnProperty" then Some (Some 1%nat)
  else if String.eqb k "isPrototypeOf" then Some (Some 1%nat)
  else if String.eqb k "propertyIsEnumerable" then Some (Some 1%nat)
  else if String.eqb k "toLocaleString" then Some (Some 0%nat)
  else if String.eqb k "toString" then Some (Some 0%nat)
  else if String.eqb k "valueOf" then Some (Some 0%nat)
  else if String.eqb k "__defineGetter__" then Some (Some 2%nat)
  else if String.eqb k "__defineSetter__" then Some (Some 2%nat)
  else if String.eqb k "__lookupGetter__" then Some (Some 1%nat)
  else if String.eqb k "__lookupSetter__" then Some (Some 1%nat)
  else if String.eqb k "__proto__" then Some None
  else None.

Definition ROOT : string := "ROOT".

(** [(n.parent_id === null || n.parent_id === undefined) ? "ROOT" : n.parent_id]
    used as a property key. *)
Definition pid (n : Node) : string :=
  if nullish (parent_id n) then ROOT else ToString (parent_id n).

(** One iteration of [nodes.forEach]: an own bucket receives the node; a
    missing key gets a fresh array; a key that only the prototype answers is
    truthy, so no array is created and [push] is not a function. *)
Definition pushChild (childMap : gmap string (list Node)) (n : Node)
  : outcome (gmap string (list Node)) :=
  match childMap !! pid n with
  | Some bucket => Ret (<[pid n := bucket ++ [n]]> childMap)
  | None =>
      match inherited (pid n) with
      | Some _ => Throw TypeError
      | None => Ret (<[pid n := [n]]> childMap)
      end
  end.

Fixpoint groupNodes (childMap : gmap string (list Node)) (ns : list Node)
  : outcome (gmap string (list Node)) :=
  match ns with
  | [] => Ret childMap
  | n :: rest => let* m := pushChild childMap n in groupNodes m rest
  end.

(** [a.order ?? 0] *)
Definition effOrder (n : Node) : Z := default 0 (order n).

(** The comparator [(a, b) => (a.order ?? 0) - (b.order ?? 0)]. *)
Definition compareOrder (a b : Node) : Z := effOrder a - effOrder b.

(** [Array.prototype.sort] is a stable sort; with a consistent comparator
    its result is the stable insertion sort of the array. *)
Fixpoint insertSorted (x : Node) (l : list Node) : list Node :=
  match l with
  | [] => [x]
  | y :: r => if compareOrder x y <=? 0 then x :: y :: r else y :: insertSorted x r
  end.

Fixpoint sortByOrder (l : list Node) : list Node :=
  match l with
  | [] => []
  | x :: r => insertSorted x (sortByOrder r)
  end.

(** The grouping step followed by [Object.keys(childMap).forEach(sort)]. *)
Definition buildChildMap (ns : list Node) : outcome (gmap string (list Node)) :=
  let* m := groupNodes ∅ ns in Ret (sortByOrder <$> m).

Set Warnings "-register-all".

(** ** Visual tree *)

(** A [.node-card] element: its [dataset.nodeId] (a DOM string), the [assy]
    class, the [selected] class, and the node its click handler closes over.
    Title, meta line and badge are text derived from that node. *)
Record Card : Type := mkCard {
  nodeId : string;
  assy : bool;
  selected : bool;
  source : Node
}.

Definition createNodeCard (node : Node) : Card :=
  {| nodeId := ToString (id node);
     assy := bool_decide (type node = Str "ASSY");
     selected := false;
     source := node |}.

(** The two custom properties [--line-top] and [--line-height] of a
    [.tree-children] container, in pixels. *)
Inductive Line : Type :=
| NoLine
| Span (top height : Q).

(** A [.tree-node] wrapper: depth class, the card of its row, and the
    wrappers inside its [.tree-children] container (no container when the
    list is empty). *)
Inductive Wrapper : Type :=
| Wrap (depth : nat) (card : Card) (children : list Wrapper) (line : Line).

Fixpoint mapM {A B : Type} (f : A -> outcome B) (l : list A) : outcome (list B) :=
  match l with
  | [] => Ret []
  | x :: r => let* y := f x in let* ys := mapM f r in Ret (y :: ys)
  end.

(** [childMap[key] || []], then [children.length > 0] and
    [children.forEach]: an own bucket is an array; an inherited function of
    positive [length] has no [forEach]; anything else counts as no child. *)
Definition childrenOf (childMap : gmap string (list Node)) (key : string)
  : outcome (list Node) :=
  match childMap !! key with
  | Some bucket => Ret bucket
  | None =>
      match inherited key with
      | Some (Some (S _)) => Throw TypeError
      | _ => Ret []
      end
  end.

(** [createNodeWrapper(node, depth)].  [stack] is the number of nested
    calls the engine still allows; exceeding it raises [RangeError]. *)
Fixpoint createNodeWrapper (stack : nat) (childMap : gmap string (list Node))
    (node : Node) (depth : nat) : outcome Wrapper :=
  match stack with
  | O => Throw RangeError
  | S stack' =>
      let card := createNodeCard node in
      let* children := childrenOf childMap (ToString (id node)) in
      let* ws := mapM (fun child => createNodeWrapper stack' childMap child (S depth))
                      children in
      Ret (Wrap depth card ws NoLine)
  end.

(** [roots.forEach(rootNode => container.appendChild(createNodeWrapper(rootNode, 0)))]:
    wrappers appended before an exception stay in the container. *)
Fixpoint appendRoots (stack : nat) (childMap : gmap string (list Node))
    (roots : list Node) (appended : list Wrapper) : list Wrapper * option error :=
  match roots with
  | [] => (appended, None)
  | r :: rest =>
      match createNodeWrapper stack childMap r 0 with
      | Ret w => appendRoots stack childMap rest (appended ++ [w])
      | Throw e => (appended, Some e)
      end
  end.

(** The part of [renderSubTree] from [const nodes = currentTree.nodes] to the
    last [appendChild], on a non-empty node array. *)
Definition renderNodes (stack : nat) (ns : list Node) : list Wrapper * option error :=
  match buildChildMap ns with
  | Throw e => ([], Some e)
  | Ret childMap => appendRoots stack childMap (default [] (childMap !! ROOT)) []
  end.

Fixpoint cardsOf (w : Wrapper) : list Card :=
  match w with
  | Wrap _ c ws _ => c :: concat (map cardsOf ws)
  end.

Definition cards (ws : list Wrapper) : list Card := concat (map cardsOf ws).

(** The nodes drawn in a forest of wrappers, one entry per card. *)
Definition rendered (ws : list Wrapper) : list Node := map source (cards ws).

Fixpoint mapCard (f : Card -> Card) (w : Wrapper) : Wrapper :=
  match w with
  | Wrap d c ws ln => Wrap d (f c) (map (mapCard f) ws) ln
  end.

(** ** Client state *)

(** What [#sub-tree-root] holds: the placeholder [span], or the wrappers
    appended so far. *)
Inductive Content : Type :=
| Placeholder
| Wrappers (ws : list Wrapper).

(** The detail panel: untouched since page load, the empty notice shown, or
    the form shown and filled from a node. *)
Inductive Panel : Type :=
| PanelInitial
| PanelEmpty
| PanelForm (n : Node).

Inductive Caption : Type :=
| CaptionInitial
| CaptionLoading
| CaptionLoaded (subName : string)
| CaptionLoadFailed
| CaptionUploading
| CaptionUploaded (fileName : string)
| CaptionUploadFailed.

(** The JSON body of the PATCH request ([None] is [null]). *)
Record Payload : Type := mkPayload {
  p_name : string;
  p_type : string;
  p_vehicle : option string;
  p_material : option string;
  p_qty : option number
}.

(** Requests sent with [fetch]; the path components are kept apart instead
    of being percent-encoded into one URL. *)
Inductive Request : Type :=
| GetSubs
| GetTree (subName : value)
| PostUpload (fileName : string)
| PatchNode (subName : value) (node : string) (body : Payload)
| GetState
| PostState (subName : value) (selectedId : value).

(** Effects visible outside the two variables and the page. *)
Inductive Event : Type :=
| Fetch (r : Request)
| Alert
| ConsoleError
| AnimationFrame        (* [requestAnimationFrame(adjustTreeLines)] *)
| JsonPreview.          (* [refreshJsonPreview()] *)

Definition isFetch (e : Event) : bool :=
  match e with Fetch _ => true | _ => false end.

Definition isPatch (e : Event) : bool :=
  match e with Fetch (PatchNode _ _ _) => true | _ => false end.

(** [container], [panel] and [caption] are [None] when the element (for the
    panel: either of [detail-empty], [detail-form]) is not in the page.
    [log] lists the effects in the order they happened. *)
Record State : Type := mkState {
  currentTree : option Tree;
  currentSelectedId : value;
  container : option Content;
  panel : option Panel;
  caption : option Caption;
  log : list Event
}.

Definition setTree (t : option Tree) (st : State) : State :=
  mkState t (currentSelectedId st) (container st) (panel st) (caption st) (log st).
Definition setSelected (v : value) (st : State) : State :=
  mkState (currentTree st) v (container st) (panel st) (caption st) (log st).
Definition setContent (c : Content) (st : State) : State :=
  mkState (currentTree st) (currentSelectedId st) (Some c) (panel st) (caption st) (log st).
Definition setPanel (p : Panel) (st : State) : State :=
  mkState (currentTree st) (currentSelectedId st) (container st) (Some p) (caption st) (log st).
(** [if (caption) caption.textContent = ...] *)
Definition setCaption (c : Caption) (st : State) : State :=
  mkState (currentTree st) (currentSelectedId st) (container st) (panel st)
          (match caption st with Some _ => Some c | None => None end) (log st).
Definition emit (e : Event) (st : State) : State :=
  mkState (currentTree st) (currentSelectedId st) (container st) (panel st) (caption st)
          (log st ++ [e]).

(** Values the user has typed in the detail form when a handler runs
    ([None]: the input element is missing). *)
Record Form : Type := mkForm {
  f_name : option string;
  f_type : option string;
  f_vehicle : option string;
  f_material : option string;
  f_qty : option string
}.

(** What a request comes back with. *)
Inductive Body (A : Type) : Type :=
| Unreadable
| Json (a : A).
Arguments Unreadable {A}.
Arguments Json {A} a.

Inductive Reply (A : Type) : Type :=
| NetworkFailure
| Response (ok : bool) (body : Body A).
Arguments NetworkFailure {A}.
Arguments Response {A} ok body.

(** The JSON object served by [GET /api/state]. *)
Record Session : Type := mkSession {
  s_sub_name : value;
  s_selected_id : value
}.

(** The page right after the script is loaded. *)
Definition initialState (tree panel caption : bool) : State :=
  {| currentTree := None;
     currentSelectedId := Null;
     container := if tree then Some (Wrappers []) else None;
     panel := if panel then Some PanelInitial else None;
     caption := if caption then Some CaptionInitial else None;
     log := [] |}.

(** ** Selection and detail panel *)

Definition allCards (st : State) : list Card :=
  match container st with
  | Some (Wrappers ws) => cards ws
  | _ => []
  end.

Definition highlight (sel : value) (c : Card) : Card :=
  mkCard (nodeId c) (assy c) (String.eqb (nodeId c) (ToString sel)) (source c).

Definition updateSelectionHighlight (st : State) : State :=
  match container st with
  | Some (Wrappers ws) =>
      setContent (Wrappers (map (mapCard (highlight (currentSelectedId st))) ws)) st
  | _ => st
  end.

(** [currentTree.nodes?.find(n => String(n.id) === String(currentSelectedId))] *)
Definition sameId (sel : value) (n : Node) : bool :=
  String.eqb (ToString (id n)) (ToString sel).

Definition findSelected (t : Tree) (sel : value) : option Node :=
  match nodes t with
  | Some ns => List.find (sameId sel) ns
  | None => None
  end.

Definition updateDetailPanel (st : State) : State :=
  match panel st with
  | None => st
  | Some _ =>
      match currentTree st with
      | Some t =>
          if truthy (currentSelectedId st) then
            match findSelected t (currentSelectedId st) with
            | Some node => setPanel (PanelForm node) st
            | None => setPanel PanelEmpty st
            end
          else setPanel PanelEmpty st
      | None => setPanel PanelEmpty st
      end
  end.

Definition clearSelection (st : State) : State :=
  updateDetailPanel (updateSelectionHighlight (setSelected Null st)).

(** ** The script *)

Fixpoint updateFirst (p : Node -> bool) (f : Node -> Node) (l : list Node) : list Node :=
  match l with
  | [] => []
  | x :: r => if p x then f x :: r else x :: updateFirst p f r
  end.

(** [const getVal = id => { const el = ...; return el ? el.value : ""; }] *)
Definition getVal (input : option string) : string := default "" input.

(** The assignments [node.name = ...] to [node.qty = ...] of
    [applyLocalChanges]. *)
Definition editNode (form : Form) (node : Node) : Node :=
  let qtyVal := trim (getVal (f_qty form)) in
  {| id := id node;
     parent_id := parent_id node;
     order := order node;
     name := Str (getVal (f_name form));
     type := Str (getVal (f_type form));
     vehicle := Str (getVal (f_vehicle form));
     material := Str (getVal (f_material form));
     qty := if String.eqb qtyVal "" then None else Some (Number qtyVal) |}.

(** [document.getElementById(id).value]: a missing element is [null]. *)
Definition inputValue (input : option string) : outcome string :=
  match input with
  | Some v => Ret v
  | None => Throw TypeError
  end.

(** [value || null] *)
Definition orNull (v : string) : option string :=
  if String.eqb v "" then None else Some v.

(** [v === "" ? null : Number(v)] *)
Definition qtyOf (v : string) : option number :=
  if String.eqb v "" then None else Some (Number v).

(** The object literal [payload] of [applyAndPersistSelectedNode]. *)
Definition readPayload (form : Form) : outcome Payload :=
  let* n := inputValue (f_name form) in
  let* t := inputValue (f_type form) in
  let* v := inputValue (f_vehicle form) in
  let* m := inputValue (f_material form) in
  let* q := inputValue (f_qty form) in
  Ret {| p_name := n; p_type := t; p_vehicle := orNull v;
         p_material := orNull m; p_qty := qtyOf q |}.

(** Elements the start-up code looks up. *)
Record Page : Type := mkPage {
  hasSubSelect : bool;
  hasApplyButton : bool;
  hasClearButton : bool;
  hasTreeRoot : bool;
  hasPanel : bool;
  hasCaption : bool
}.

Section Script.

(** Nested calls the engine allows to [createNodeWrapper]. *)
Variable stack : nat.
(** [typeof refreshJsonPreview === "function"] *)
Variable preview : bool.

Definition renderSubTree (st : State) : State * option error :=
  match container st with
  | None => (st, None)
  | Some _ =>
      let st1 := updateDetailPanel (setSelected Null (setContent (Wrappers []) st)) in
      match currentTree st1 with
      | Some {| nodes := Some (n :: ns) |} =>
          let '(ws, e) := renderNodes stack (n :: ns) in
          let st2 := setContent (Wrappers ws) st1 in
          match e with
          | Some err => (st2, Some err)
          | None => (emit AnimationFrame st2, None)
          end
      | _ => (setContent Placeholder st1, None)
      end
  end.

Definition applyLocalChanges (form : Form) (st : State) : State * option error :=
  match currentTree st with
  | None => (st, None)
  | Some t =>
      if truthy (currentSelectedId st) then
        match findSelected t (currentSelectedId st) with
        | None => (st, None)
        | Some node =>
            let edited :=
              {| sub_name := sub_name t;
                 nodes := updateFirst (sameId (currentSelectedId st)) (editNode form)
                            <$> nodes t |} in
            let keepId := id node in
            match renderSubTree (setTree (Some edited) st) with
            | (st1, Some e) => (st1, Some e)
            | (st1, None) =>
                let st2 := updateDetailPanel
                             (updateSelectionHighlight (setSelected keepId st1)) in
                (if preview then emit JsonPreview st2 else st2, None)
            end
        end
      else (st, None)
  end.

(** [saveSessionState]: the response is not inspected; a rejected fetch is
    logged. *)
Definition saveSessionState (subName selectedId : value) (reply : Reply unit)
    (st : State) : State :=
  let st1 := emit (Fetch (PostState subName selectedId)) st in
  match reply with
  | NetworkFailure => emit ConsoleError st1
  | Response _ _ => st1
  end.

(** The click listener installed by [createNodeCard]. *)
Definition cardClick (node : Node) (reply : Reply unit) (st : State) : State :=
  let st1 := updateDetailPanel
               (updateSelectionHighlight (setSelected (id node) st)) in
  match currentTree st1 with
  | Some t => saveSessionState (sub_name t) (Str (ToString (id node))) reply st1
  | None => st1
  end.

(** [loadSubTree]; [select] is the value of [#sub-select] ([None]: no such
    element). *)
Definition loadSubTree (select : option string) (reply : Reply (option Tree))
    (st : State) : State :=
  match select with
  | None => st
  | Some subName =>
      if String.eqb subName "" then st
      else
        let st1 := emit (Fetch (GetTree (Str subName))) (setCaption CaptionLoading st) in
        let failed s := emit ConsoleError (setCaption CaptionLoadFailed s) in
        match reply with
        | Response true (Json t) =>
            match renderSubTree (setCaption (CaptionLoaded subName) (setTree t st1)) with
            | (st2, None) => st2
            | (st2, Some _) => failed st2
            end
        | _ => failed st1
        end
  end.

Definition resetSelectedNode (select : option string) (reply : Reply (option Tree))
    (st : State) : State :=
  match currentTree st with
  | Some _ => if truthy (currentSelectedId st) then loadSubTree select reply st else st
  | None => st
  end.

(** The [change] listener of [#sub-select]. *)
Definition subSelectChange (select : option string) (reply : Reply (option Tree))
    (st : State) : State :=
  loadSubTree select reply (clearSelection st).

Definition handleExcelFileSelected (fileName : string)
    (reply : Reply (option Tree)) (saved : Reply unit) (st : State) : State :=
  let st1 := emit (Fetch (PostUpload fileName)) (setCaption CaptionUploading st) in
  let failed s := emit ConsoleError (setCaption CaptionUploadFailed s) in
  match reply with
  | Response true (Json t) =>
      match renderSubTree (setCaption (CaptionUploaded fileName) (setTree t st1)) with
      | (st2, Some _) => failed st2
      | (st2, None) =>
          match currentTree st2 with
          | Some t' => saveSessionState (sub_name t') Null saved st2
          | None => failed st2
          end
      end
  | _ => failed st1
  end.

Definition applyAndPersistSelectedNode (form : Form) (reply : Reply (option Tree))
    (st : State) : State * option error :=
  match currentTree st with
  | None => (st, None)
  | Some t =>
      if nullish (currentSelectedId st) then (st, None)
      else
        let subName := sub_name t in
        let nodeId := ToString (currentSelectedId st) in
        match readPayload form with
        | Throw e => (st, Some e)
        | Ret payload =>
            let st1 := emit (Fetch (PatchNode subName nodeId payload)) st in
            match reply with
            | NetworkFailure => (st1, Some FetchError)
            | Response false _ => (st1, Some HttpError)
            | Response true Unreadable => (st1, Some FetchError)
            | Response true (Json t') =>
                match renderSubTree (setTree t' st1) with
                | (st2, Some e) => (st2, Some e)
                | (st2, None) =>
                    (updateDetailPanel (setSelected (Str nodeId) st2), None)
                end
            end
        end
  end.

(** The listener of [#btn-apply-local] that wraps the call in [try]. *)
Definition applyClick (form : Form) (reply : Reply (option Tree)) (st : State) : State :=
  match applyAndPersistSelectedNode form reply st with
  | (st1, None) => st1
  | (st1, Some _) => emit Alert (emit ConsoleError st1)
  end.

Definition restoreSessionState (r1 : Reply (option Session))
    (r2 : Reply (option Tree)) (st : State) : State :=
  let st1 := emit (Fetch GetState) st in
  match r1 with
  | NetworkFailure => emit ConsoleError st1
  | Response false _ => st1
  | Response true Unreadable => emit ConsoleError st1
  | Response true (Json None) => emit ConsoleError st1
  | Response true (Json (Some state)) =>
      if truthy (s_sub_name state) then
        let st2 := emit (Fetch (GetTree (s_sub_name state))) st1 in
        match r2 with
        | NetworkFailure => emit ConsoleError st2
        | Response false _ => st2
        | Response true Unreadable => emit ConsoleError st2
        | Response true (Json t) =>
            match renderSubTree (setTree t st2) with
            | (st3, Some _) => emit ConsoleError st3
            | (st3, None) =>
                if truthy (s_selected_id state)
                then updateDetailPanel (setSelected (s_selected_id state) st3)
                else st3
            end
        end
      else st1
  end.

(** The body of the [DOMContentLoaded] listener: [loadSubList()] sends its
    request, the listeners are bound (the two unguarded
    [getElementById(...).addEventListener] need their buttons), then
    [restoreSessionState()] is called. *)
Definition startup (page : Page) (r1 : Reply (option Session))
    (r2 : Reply (option Tree)) : State * option error :=
  let st0 := initialState (hasTreeRoot page) (hasPanel page) (hasCaption page) in
  let st1 := if hasSubSelect page then emit (Fetch GetSubs) st0 else st0 in
  if hasApplyButton page && hasClearButton page
  then (restoreSessionState r1 r2 st1, None)
  else (st1, Some TypeError).

End Script.

(** ** Connector geometry *)

(** A [getBoundingClientRect()] result, as far as it is read. *)
Record Rect : Type := mkRect {
  rect_top : Q;
  rect_height : Q
}.

Section Layout.

(** Measured boxes, by the path of child indices from [#sub-tree-root]:
    the row of a wrapper, and the [.tree-children] container of a wrapper. *)
Variable rowRect : list nat -> Rect.
Variable childrenRect : list nat -> Rect.

Definition midpoint (parentRect r : Rect) : Q :=
  (rect_top r + rect_height r / 2 - rect_top parentRect)%Q.

Fixpoint adjustWrapper (path : list nat) (w : Wrapper) : Wrapper :=
  match w with
  | Wrap d c ws ln =>
      let fix each (i : nat) (l : list Wrapper) : list Wrapper :=
        match l with
        | [] => []
        | x :: r => adjustWrapper (path ++ [i]) x :: each (S i) r
        end in
      let ln' :=
        match ws with
        | [] => ln
        | _ =>
            let parentRect := childrenRect path in
            let firstMid := midpoint parentRect (rowRect (path ++ [O])) in
            let lastMid := midpoint parentRect (rowRect (path ++ [(length ws - 1)%nat])) in
            Span firstMid (Qmax 0 (lastMid - firstMid))
        end in
      Wrap d c (each O ws) ln'
  end.

Fixpoint adjustEach (i : nat) (ws : list Wrapper) : list Wrapper :=
  match ws with
  | [] => []
  | w :: r => adjustWrapper [i] w :: adjustEach (S i) r
  end.

Definition adjustTreeLines (st : State) : State :=
  match container st with
  | Some (Wrappers ws) => setContent (Wrappers (adjustEach O ws)) st
  | _ => st
  end.

End Layout.

(** ** Vocabulary of the statements *)

(** Sibling order: non-decreasing effective [order]. *)
Definition byOrder (a b : Node) : Prop := effOrder a <= effOrder b.

(** The property key under which the children of a node are looked up. *)
Definition idKey (n : Node) : string := ToString (id n).

(** The nodes filed under a key, in list order. *)
Definition filed (k : string) (ns : list Node) : list Node :=
  filter (fun n => pid n = k) ns.

Definition bucket (k : string) (ns : list Node) : option (list Node) :=
  match filed k ns with
  | [] => None
  | b => Some b
  end.

(** A chain lists a node followed by its ancestors up to a member of the
    root bucket: each entry is filed under the key of the next one. *)
Inductive chain (ns : list Node) : list Node -> Prop :=
| chain_root r : r ∈ ns -> pid r = ROOT -> chain ns [r]
| chain_step c p l :
    chain ns (p :: l) -> c ∈ ns -> pid c = idKey p -> chain ns (c :: p :: l).

(** [x] is drawn at or below the node [c] whose ancestors are [T]. *)
Definition descends (ns : list Node) (x c : Node) (T : list Node) : Prop :=
  exists pre, chain ns (pre ++ c :: T) /\ head (pre ++ c :: T) = Some x.

(** A parent reference that no node of the list answers. *)
Definition orphan (ns : list Node) (n : Node) : Prop :=
  nullish (parent_id n) = false /\ ToString (parent_id n) ∉ map idKey ns.

(** ** Example data *)

Definition plain (i p : value) (o : option Z) (label : string) : Node :=
  mkNode i p o (Str label) (Str "PART") Null Null None.

(** The tree of the specification's render scenario. *)
Definition rootNode : Node := plain (Num 1) Null (Some 0) "Root".
Definition childNode : Node := plain (Num 2) (Num 1) (Some 0) "Child".
Definition treeX : Tree := mkTree (Str "X") (Some [rootNode; childNode]).

(** Siblings with a tie, a missing [order] and a negative one. *)
Definition siblings : list Node :=
  [ plain (Num 10) Null (Some 2) "a"; plain (Num 11) Null None "b";
    plain (Num 12) Null (Some 0) "c"; plain (Num 13) Null (Some (-1)) "d";
    plain (Num 14) (Num 10) (Some 5) "e"; plain (Num 15) Null (Some 2) "f" ].

(** A forest with a two-node parent cycle and a dangling parent. *)
Definition tangled : list Node :=
  [ rootNode; childNode;
    plain (Num 3) (Num 4) (Some 0) "loop-a"; plain (Num 4) (Num 3) (Some 0) "loop-b";
    plain (Num 5) (Num 99) (Some 0) "dangling" ].

(** A node whose parent reference is the text of the sentinel. *)
Definition sentinelChild : Node := plain (Num 1) (Str "ROOT") (Some 0) "stray".
(** A root whose id is the text of the sentinel. *)
Definition sentinelRoot : Node := plain (Str "ROOT") Null (Some 0) "root".
(** Two roots sharing an id, and a child of that id. *)
Definition twins : list Node :=
  [ plain (Num 1) Null (Some 0) "first"; plain (Num 1) Null (Some 1) "second"; childNode ].
(** The number 1 and the text "1" as ids. *)
Definition mixedIds : list Node :=
  [ rootNode; plain (Str "1") (Num 1) (Some 0) "text-one" ].
(** The scenario tree followed by a root whose id is the sentinel. *)
Definition strayTree : Tree :=
  mkTree (Str "X") (Some [rootNode; childNode; sentinelRoot]).
(** A parent reference naming a property of [Object.prototype]. *)
Definition protoChild : Node := plain (Num 7) (Str "constructor") (Some 0) "proto".

Definition builtMap (ns : list Node) : gmap string (list Node) :=
  match buildChildMap ns with
  | Ret m => m
  | Throw _ => ∅
  end.

Definition silent (e : Event) : bool := negb (isFetch e).

Definition emptied (p : option Panel) : option Panel :=
  match p with
  | Some _ => Some PanelEmpty
  | None => None
  end.

(** Agreement on everything except the log. *)
Definition sameClient (st st' : State) : Prop :=
  currentTree st' = currentTree st
  /\ currentSelectedId st' = currentSelectedId st
  /\ container st' = container st
  /\ panel st' = panel st
  /\ caption st' = caption st.

Definition formFive : Form :=
  mkForm (Some "Child") (Some "PART") (Some "") (Some "steel") (Some "5").

(** The scenario tree drawn, then the card of node 2 clicked. *)
Definition drawnX : State :=
  fst (renderSubTree 8 (setTree (Some treeX) (initialState true true true))).
Definition selected2 : State := cardClick childNode (Response true Unreadable) drawnX.

Definition isGetState (e : Event) : bool :=
  match e with Fetch GetState => true | _ => false end.

Definition isGetTree (e : Event) : bool :=
  match e with Fetch (GetTree _) => true | _ => false end.

Definition isAlert (e : Event) : bool :=
  match e with Alert => true | _ => false end.

Definition isConsoleError (e : Event) : bool :=
  match e with ConsoleError => true | _ => false end.

(** A fetch that yields no JSON value: rejected, answered with a non-2xx
    status, or with a body that cannot be parsed. *)
Definition unusable {A : Type} (r : Reply A) : bool :=
  match r with
  | Response true (Json _) => false
  | _ => true
  end.

Definition fullPage : Page := mkPage true true true true true true.

Definition sessionX (sel : value) : Reply (option Session) :=
  Response true (Json (Some (mkSession (Str "X") sel))).

(** ** The tree build on a store of arrays

    [currentTree.nodes] is an array of references to node objects; the
    buckets of [childMap] are arrays the build creates and sorts in place.
    Here arrays live in a store, so that writing through one reference is
    seen through every other. *)

Module Heap.

Definition loc : Type := positive.

(** The node object behind each reference, and the live arrays. *)
Record Store : Type := mkStore {
  objects : loc -> Node;
  arrays : gmap loc (list loc)
}.

(** One iteration of [nodes.forEach] on the reference [r]: [push] onto the
    bucket array, or a new array [[]] stored under the key and pushed onto. *)
Definition pushChild (s : Store) (childMap : gmap string loc) (r : loc)
  : outcome (Store * gmap string loc) :=
  let n := objects s r in
  match childMap !! pid n with
  | Some a => Ret (mkStore (objects s) (alter (fun b => b ++ [r]) a (arrays s)), childMap)
  | None =>
      match inherited (pid n) with
      | Some _ => Throw TypeError
      | None =>
          let a := fresh (dom (arrays s)) in
          Ret (mkStore (objects s) (<[a := [r]]> (arrays s)), <[pid n := a]> childMap)
      end
  end.

Fixpoint groupNodes (s : Store) (childMap : gmap string loc) (rs : list loc)
  : outcome (Store * gmap string loc) :=
  match rs with
  | [] => Ret (s, childMap)
  | r :: rest =>
      let* sc := pushChild s childMap r in groupNodes (fst sc) (snd sc) rest
  end.

Fixpoint insertSorted (s : Store) (x : loc) (l : list loc) : list loc :=
  match l with
  | [] => [x]
  | y :: r =>
      if compareOrder (objects s x) (objects s y) <=? 0
      then x :: y :: r else y :: insertSorted s x r
  end.

Fixpoint sortByOrder (s : Store) (l : list loc) : list loc :=
  match l with
  | [] => []
  | x :: r => insertSorted s x (sortByOrder s r)
  end.

(** [Object.keys(childMap).forEach(key => childMap[key].sort(...))] *)
Definition sortBuckets (s : Store) (childMap : gmap string loc) : Store :=
  mkStore (objects s)
          (foldr (fun ka arrs => alter (sortByOrder s) (snd ka) arrs)
                 (arrays s) (map_to_list childMap)).

(** The build of [renderSubTree] on the array at [nodes]. *)
Definition buildChildMap (s : Store) (nodes : loc)
  : outcome (Store * gmap string loc) :=
  match arrays s !! nodes with
  | None => Throw TypeError
  | Some rs =>
      let* sc := groupNodes s ∅ rs in
      Ret (sortBuckets (fst sc) (snd sc), snd sc)
  end.

(** The nodes a key leads to: through [childMap] to an array, through the
    array to the objects. *)
Definition view (s : Store) (childMap : gmap string loc) (k : string)
  : option (list Node) :=
  a ← childMap !! k; map (objects s) <$> arrays s !! a.

(** What the build may rely on between two iterations, relative to the
    store [s0] it started from. *)
Record invariant (s0 s : Store) (childMap : gmap string loc) : Prop := {
  inv_objects : objects s = objects s0;
  inv_frame : forall b, b ∈ dom (arrays s0) -> arrays s !! b = arrays s0 !! b;
  inv_dom : dom (arrays s0) ⊆ dom (arrays s);
  inv_new : forall k a, childMap !! k = Some a ->
            a ∈ dom (arrays s) /\ a ∉ dom (arrays s0);
  inv_inj : forall k1 k2 a, childMap !! k1 = Some a -> childMap !! k2 = Some a -> k1 = k2
}.

End Heap.

(** What a completed or interrupted render leaves in the container. *)
Definition drawing (stack : nat) (t : option Tree) : Content :=
  match t with
  | Some {| nodes := Some (n :: ns) |} => Wrappers (fst (renderNodes stack (n :: ns)))
  | _ => Placeholder
  end.

(** The six sibling objects behind references 1 to 6, their array at 1. *)
Definition siblingStore : Heap.Store :=
  Heap.mkStore (fun r => default rootNode (siblings !! (Pos.to_nat r - 1)%nat))
               {[ 1%positive := [1; 2; 3; 4; 5; 6]%positive ]}.

(** ** Readings of the drawn tree *)

#[global] Instance Card_eq_dec : EqDecision Card.
Proof. solve_decision. Defined.

Definition cardOf (w : Wrapper) : Card :=
  match w with Wrap _ c _ _ => c end.

(** The node a wrapper was created for. *)
Definition nodeOf (w : Wrapper) : Node := source (cardOf w).

(** The [depth-N] class of every wrapper is its nesting level below [d]. *)
Fixpoint leveled (d : nat) (w : Wrapper) : bool :=
  match w with
  | Wrap d' _ ws _ => Nat.eqb d' d && forallb (leveled (S d)) ws
  end.

(** Every wrapper carries the fresh card of its node, and its children are
    the wrappers of the nodes filed under its node's key, in sorted order. *)
Fixpoint mirrors (ns : list Node) (w : Wrapper) : bool :=
  match w with
  | Wrap _ c ws _ =>
      bool_decide (c = createNodeCard (source c))
      && bool_decide (map nodeOf ws = sortByOrder (filed (idKey (source c)) ns))
      && forallb (mirrors ns) ws
  end.

(** The data-model invariant of a dataset: ids distinct as keys, none the
    sentinel or an inherited property name, and every node linked to a root
    by parent references. *)
Definition forest (ns : list Node) : Prop :=
  NoDup (map idKey ns)
  /\ (ROOT ∉ map idKey ns)
  /\ Forall (fun n => inherited (pid n) = None /\ inherited (idKey n) = None) ns
  /\ forall n, n ∈ ns -> exists l, chain ns (n :: l).

(** A small forest: two roots, one with two children and a grandchild. *)
Definition grove : list Node :=
  [ plain (Num 2) (Num 1) (Some 1) "b"; plain (Num 1) Null (Some 0) "a";
    plain (Num 3) (Num 1) (Some 0) "c"; plain (Str "x") Null (Some 0) "x";
    plain (Num 4) (Num 3) None "d" ].

(** ** The button listeners *)

(** [applyAndPersistSelectedNode] up to its first [await]: the guard, the
    payload and the call of [fetch].  The result is the [nodeId] the rest of
    the call keeps, or [None] when the guard returned. *)
Definition persistBegin (form : Form) (st : State) : State * outcome (option string) :=
  match currentTree st with
  | None => (st, Ret None)
  | Some t =>
      if nullish (currentSelectedId st) then (st, Ret None)
      else
        let nodeId := ToString (currentSelectedId st) in
        match readPayload form with
        | Throw e => (st, Throw e)
        | Ret payload =>
            (emit (Fetch (PatchNode (sub_name t) nodeId payload)) st, Ret (Some nodeId))
        end
  end.

(** The rest of the call, run when the reply has been read. *)
Definition persistResume (stack : nat) (nodeId : string) (reply : Reply (option Tree))
    (st : State) : State * option error :=
  match reply with
  | NetworkFailure => (st, Some FetchError)
  | Response false _ => (st, Some HttpError)
  | Response true Unreadable => (st, Some FetchError)
  | Response true (Json t') =>
      match renderSubTree stack (setTree t' st) with
      | (st2, Some e) => (st2, Some e)
      | (st2, None) => (updateDetailPanel (setSelected (Str nodeId) st2), None)
      end
  end.





(** [currentTree?.sub_name ?? null] *)
Definition sessionName (st : State) : value :=
  match currentTree st with
  | Some t => if nullish (sub_name t) then Null else sub_name t
  | None => Null
  end.

(** One click on [#btn-clear-selection]: the listener of
    [bindDetailPanelEvents] clears and saves through [saveSessionState], the
    listener bound at the end of the script clears again and posts on its
    own; both posts leave before either reply is seen, and only the first
    listener logs a rejected post. *)
Definition clearButtonClick (saved posted : Reply unit) (st : State) : State :=
  let st1 := clearSelection st in
  let st2 := emit (Fetch (PostState (sessionName st1) Null)) st1 in
  let st3 := updateDetailPanel (setSelected Null st2) in
  let st4 := emit (Fetch (PostState (sessionName st3) Null)) st3 in
  match saved with
  | NetworkFailure => emit ConsoleError st4
  | Response _ _ => st4
  end.

(** ** Lines and captions *)

(** Every children container of a wrapper and below has a line of
    non-negative height, of height zero when it holds one child. *)
Fixpoint linesDrawn (w : Wrapper) : Prop :=
  match w with
  | Wrap _ _ ws ln =>
      match ws, ln with
      | [], _ => True
      | [_], Span _ h => (h == 0)%Q
      | _ :: _ :: _, Span _ h => (0 <= h)%Q
      | _ :: _, NoLine => False
      end
      /\ (fix all (l : list Wrapper) : Prop :=
            match l with
            | [] => True
            | x :: r => linesDrawn x /\ all r
            end) ws
  end.

(** The caption after [if (caption) caption.textContent = ...]. *)
Definition captionAfter (old : option Caption) (c : Caption) : option Caption :=
  match old with
  | Some _ => Some c
  | None => None
  end.

Definition isPostState (e : Event) : bool :=
  match e with Fetch (PostState _ _) => true | _ => false end.

(** * Properties *)

(** ** Sorting *)

Lemma insertSorted_perm x l : insertSorted x l ≡ₚ x :: l.
Proof.
  induction l as [|y r IH]; simpl; [done|].
  destruct (compareOrder x y <=? 0); [done|].
  rewrite IH. apply Permutation_swap.
Qed.

Lemma sortByOrder_perm l : sortByOrder l ≡ₚ l.
Proof.
  induction l as [|x r IH]; simpl; [done|].
  by rewrite insertSorted_perm, IH.
Qed.

Lemma insertSorted_hd x y l :
  byOrder y x -> HdRel byOrder y l -> HdRel byOrder y (insertSorted x l).
Proof.
  intros Hyx Hl. destruct l as [|z r]; simpl.
  - by constructor.
  - destruct (compareOrder x z <=? 0); constructor; [done|].
    by inversion Hl.
Qed.

Lemma insertSorted_sorted x l : Sorted byOrder l -> Sorted byOrder (insertSorted x l).
Proof.
  induction 1 as [|y r Hr IH Hhd]; simpl.
  - repeat constructor.
  - destruct (compareOrder x y <=? 0) eqn:E.
    + apply Z.leb_le in E. constructor; [by constructor|].
      constructor. unfold byOrder, compareOrder in *. lia.
    + apply Z.leb_gt in E. constructor; [done|].
      apply insertSorted_hd; [|done]. unfold byOrder, compareOrder in *. lia.
Qed.

Lemma sortByOrder_sorted l : Sorted byOrder (sortByOrder l).
Proof.
  induction l; simpl; [constructor|]. by apply insertSorted_sorted.
Qed.

#[local] Instance byOrder_trans : Transitive byOrder.
Proof. unfold byOrder. intros a b c. lia. Qed.

Lemma sortByOrder_strongly_sorted l : StronglySorted byOrder (sortByOrder l).
Proof. apply sorting.Sorted_StronglySorted; [apply _|apply sortByOrder_sorted]. Qed.

(** Nodes of one [order] class keep their relative positions. *)
Lemma insertSorted_stable z x l :
  filter (fun n => effOrder n = z) (insertSorted x l)
  = filter (fun n => effOrder n = z) (x :: l).
Proof.
  induction l as [|y r IH]; simpl; [done|].
  destruct (compareOrder x y <=? 0) eqn:E; [done|].
  apply Z.leb_gt in E. unfold compareOrder in E.
  rewrite (filter_cons _ y), IH, !filter_cons.
  repeat case_decide; try done; lia.
Qed.

Lemma sortByOrder_stable z l :
  filter (fun n => effOrder n = z) (sortByOrder l) = filter (fun n => effOrder n = z) l.
Proof.
  induction l as [|x r IH]; simpl; [done|].
  by rewrite insertSorted_stable, !filter_cons, IH.
Qed.

(** ** Grouping *)

Lemma bucket_snoc_same ns n : bucket (pid n) (ns ++ [n]) = Some (filed (pid n) ns ++ [n]).
Proof.
  unfold bucket, filed. rewrite filter_app, filter_cons, decide_True by done.
  simpl. by destruct (filter _ ns).
Qed.

Lemma bucket_snoc_other ns n k : pid n ≠ k -> bucket k (ns ++ [n]) = bucket k ns.
Proof.
  intros Hk. unfold bucket, filed.
  rewrite filter_app, filter_cons, decide_False by done. simpl.
  by rewrite app_nil_r.
Qed.

Lemma bucket_Some k ns b : bucket k ns = Some b -> b = filed k ns.
Proof. unfold bucket. destruct (filed k ns); naive_solver. Qed.

Lemma pushChild_spec seen m n m' :
  (forall k, m !! k = bucket k seen) ->
  pushChild m n = Ret m' ->
  forall k, m' !! k = bucket k (seen ++ [n]).
Proof.
  intros Hm Hpush k. unfold pushChild in Hpush.
  destruct (m !! pid n) as [b|] eqn:Hb.
  - injection Hpush as <-. rewrite Hm in Hb. apply bucket_Some in Hb as ->.
    destruct (decide (pid n = k)) as [<-|Hk].
    + by rewrite lookup_insert_eq, bucket_snoc_same.
    + by rewrite lookup_insert_ne, bucket_snoc_other, Hm.
  - destruct (inherited (pid n)); [done|]. injection Hpush as <-.
    destruct (decide (pid n = k)) as [<-|Hk].
    + rewrite lookup_insert_eq, bucket_snoc_same.
      rewrite Hm in Hb. unfold bucket in Hb. by destruct (filed (pid n) seen).
    + by rewrite lookup_insert_ne, bucket_snoc_other, Hm.
Qed.

Lemma groupNodes_spec rest : forall seen m m',
  (forall k, m !! k = bucket k seen) ->
  groupNodes m rest = Ret m' ->
  forall k, m' !! k = bucket k (seen ++ rest).
Proof.
  induction rest as [|n rest IH]; intros seen m m' Hm Hg; simpl in Hg.
  - injection Hg as <-. intros k. by rewrite app_nil_r.
  - destruct (pushChild m n) as [m1|] eqn:Hp; [|done]. simpl in Hg.
    intros k. rewrite (cons_middle n seen rest), app_assoc.
    eapply IH; [|done]. by eapply pushChild_spec.
Qed.

Lemma groupNodes_returns rest : forall m,
  (forall n, n ∈ rest -> inherited (pid n) = None) ->
  exists m', groupNodes m rest = Ret m'.
Proof.
  induction rest as [|n rest IH]; intros m Hin; simpl; [by eexists|].
  assert (exists m1, pushChild m n = Ret m1) as [m1 ->].
  { unfold pushChild. destruct (m !! pid n); [by eexists|].
    rewrite Hin by left. by eexists. }
  simpl. apply IH. intros. apply Hin. by right.
Qed.

Lemma buildChildMap_lookup ns childMap k :
  buildChildMap ns = Ret childMap ->
  childMap !! k = sortByOrder <$> bucket k ns.
Proof.
  unfold buildChildMap. destruct (groupNodes ∅ ns) as [m|] eqn:Hg; [|done].
  simpl. intros [= <-]. rewrite lookup_fmap. f_equal.
  apply (groupNodes_spec ns [] ∅ m); [|done].
  intros k'. by rewrite lookup_empty.
Qed.

Lemma buildChildMap_returns ns :
  (forall n, n ∈ ns -> inherited (pid n) = None) ->
  exists childMap, buildChildMap ns = Ret childMap.
Proof.
  intros H. unfold buildChildMap.
  destruct (groupNodes_returns ns ∅ H) as [m ->]. by eexists.
Qed.

Lemma buildChildMap_bucket ns childMap k b :
  buildChildMap ns = Ret childMap -> childMap !! k = Some b ->
  b = sortByOrder (filed k ns).
Proof.
  intros Hb Hk. rewrite (buildChildMap_lookup _ _ _ Hb) in Hk.
  destruct (bucket k ns) as [b'|] eqn:E; [|done].
  apply bucket_Some in E as ->. by injection Hk.
Qed.

Lemma buildChildMap_default ns childMap k :
  buildChildMap ns = Ret childMap ->
  default [] (childMap !! k) = sortByOrder (filed k ns).
Proof.
  intros Hb. rewrite (buildChildMap_lookup _ _ _ Hb).
  unfold bucket. by destruct (filed k ns).
Qed.

(** ** Rendering as a walk over the children index *)

Lemma mapM_Forall2 {A B : Type} (f : A -> outcome B) l ys :
  mapM f l = Ret ys -> Forall2 (fun x y => f x = Ret y) l ys.
Proof.
  revert ys. induction l as [|x r IH]; intros ys H; simpl in H.
  - injection H as <-. constructor.
  - destruct (f x) as [y|] eqn:Hx; [|done]. simpl in H.
    destruct (mapM f r) as [ys'|] eqn:Hr; [|done]. simpl in H.
    injection H as <-. constructor; [done|]. by apply IH.
Qed.

Lemma mapM_returns {A B : Type} (f : A -> outcome B) l :
  (forall x, x ∈ l -> exists y, f x = Ret y) -> exists ys, mapM f l = Ret ys.
Proof.
  induction l as [|x r IH]; intros H; simpl; [by eexists|].
  destruct (H x) as [y ->]; [by left|].
  destruct IH as [ys ->]; [intros; apply H; by right|].
  by eexists.
Qed.

Lemma rendered_cons w ws : rendered (w :: ws) = rendered [w] ++ rendered ws.
Proof.
  unfold rendered, cards. simpl. by rewrite app_nil_r, map_app.
Qed.

Lemma rendered_Wrap d c ws ln : rendered [Wrap d c ws ln] = source c :: rendered ws.
Proof. unfold rendered, cards. simpl. by rewrite app_nil_r. Qed.

Lemma rendered_app ws1 ws2 : rendered (ws1 ++ ws2) = rendered ws1 ++ rendered ws2.
Proof.
  induction ws1 as [|w r IH]; [done|].
  simpl. by rewrite rendered_cons, (rendered_cons w r), IH, app_assoc.
Qed.

Lemma rendered_Forall2 {A : Type} (P : A -> Wrapper -> Prop) l ws x :
  Forall2 P l ws -> x ∈ rendered ws ->
  exists c w, c ∈ l /\ P c w /\ x ∈ rendered [w].
Proof.
  induction 1 as [|c w l ws Hcw _ IH]; intros Hx.
  - by apply elem_of_nil in Hx.
  - rewrite rendered_cons in Hx. apply elem_of_app in Hx as [Hx|Hx].
    + exists c, w. split; [by left|done].
    + destruct (IH Hx) as (c' & w' & ? & ? & ?).
      exists c', w'. split; [by right|done].
Qed.

(** [appendRoots] draws a prefix of the roots, all of them when no
    exception is raised. *)
Lemma appendRoots_spec stack childMap roots : forall acc ws e,
  appendRoots stack childMap roots acc = (ws, e) ->
  exists drawn ws',
    drawn `prefix_of` roots
    /\ Forall2 (fun r w => createNodeWrapper stack childMap r 0 = Ret w) drawn ws'
    /\ ws = acc ++ ws'
    /\ (e = None -> drawn = roots).
Proof.
  induction roots as [|r rest IH]; intros acc ws e H; simpl in H.
  - injection H as <- <-. exists [], []. rewrite app_nil_r.
    split_and!; [done|constructor|done|done].
  - destruct (createNodeWrapper stack childMap r 0) as [w|err] eqn:Hr.
    + destruct (IH _ _ _ H) as (drawn & ws' & Hpre & Hall & -> & Hnone).
      exists (r :: drawn), (w :: ws'). split_and!.
      * by apply prefix_cons.
      * by constructor.
      * by rewrite <- app_assoc.
      * intros He. by rewrite Hnone.
    + injection H as <- <-. exists [], []. rewrite app_nil_r.
      split_and!; [apply prefix_nil|constructor|done|done].
Qed.

Section Forest.

Variable ns : list Node.
Variable childMap : gmap string (list Node).
Hypothesis Hbuild : buildChildMap ns = Ret childMap.

Lemma filed_elem k x : x ∈ filed k ns <-> pid x = k /\ x ∈ ns.
Proof. unfold filed. by rewrite list_elem_of_filter. Qed.

Lemma childrenOf_cases key kids :
  childrenOf childMap key = Ret kids ->
  kids = [] \/ kids = sortByOrder (filed key ns).
Proof.
  unfold childrenOf. destruct (childMap !! key) as [b|] eqn:Hb.
  - intros [= <-]. right. by eapply buildChildMap_bucket.
  - destruct (inherited key) as [[[|?]|]|]; intros [= <-]; by left.
Qed.

Lemma childrenOf_elem key kids x :
  childrenOf childMap key = Ret kids -> x ∈ kids -> pid x = key /\ x ∈ ns.
Proof.
  intros H Hx. destruct (childrenOf_cases _ _ H) as [->| ->].
  - by apply elem_of_nil in Hx.
  - rewrite sortByOrder_perm in Hx. by apply filed_elem.
Qed.

Lemma roots_elem x : x ∈ default [] (childMap !! ROOT) -> pid x = ROOT /\ x ∈ ns.
Proof.
  rewrite (buildChildMap_default _ _ _ Hbuild), sortByOrder_perm. apply filed_elem.
Qed.

Lemma chain_head_in x l : chain ns (x :: l) -> x ∈ ns.
Proof. by inversion 1. Qed.

Lemma chain_head_parent x l :
  chain ns (x :: l) -> pid x = ROOT \/ exists p, p ∈ ns /\ pid x = idKey p.
Proof.
  inversion 1 as [|c p l' Hp]; subst; [by left|].
  right. exists p. split; [by eapply chain_head_in|done].
Qed.

Lemma chain_suffix pre x l : chain ns (pre ++ x :: l) -> chain ns (x :: l).
Proof.
  induction pre as [|a pre IH]; [done|]. simpl. intros H. apply IH.
  inversion H as [|c p l' Hp]; subst.
  - by destruct pre.
  - done.
Qed.

Lemma chain_elem l x : chain ns l -> x ∈ l -> x ∈ ns.
Proof.
  intros Hl Hx. apply list_elem_of_split in Hx as (pre & suf & ->).
  apply chain_suffix in Hl. by eapply chain_head_in.
Qed.

Lemma descends_in x c T : descends ns x c T -> x ∈ ns.
Proof.
  intros (pre & Hc & Hh). apply head_Some in Hh as [l' Hl].
  rewrite Hl in Hc. by eapply chain_head_in.
Qed.

Lemma descends_parent x c T :
  descends ns x c T -> pid x = ROOT \/ exists p, p ∈ ns /\ pid x = idKey p.
Proof.
  intros (pre & Hc & Hh). apply head_Some in Hh as [l' Hl].
  rewrite Hl in Hc. by eapply chain_head_parent.
Qed.

Lemma created_descends stack : forall n d w T,
  createNodeWrapper stack childMap n d = Ret w ->
  chain ns (n :: T) ->
  forall x, x ∈ rendered [w] -> descends ns x n T.
Proof.
  induction stack as [|s IH]; intros n d w T Hw Hn x Hx; simpl in Hw; [done|].
  destruct (childrenOf childMap (ToString (id n))) as [kids|] eqn:Hkids; [|done].
  simpl in Hw.
  destruct (mapM _ kids) as [ws|] eqn:Hws; [|done]. simpl in Hw.
  injection Hw as <-. rewrite rendered_Wrap in Hx. simpl in Hx.
  apply elem_of_cons in Hx as [->|Hx].
  - exists []. by split.
  - apply mapM_Forall2 in Hws.
    destruct (rendered_Forall2 _ _ _ _ Hws Hx) as (c & w' & Hc & Hcw & Hxw).
    destruct (childrenOf_elem _ _ _ Hkids Hc) as [Hpid Hin].
    assert (chain ns (c :: n :: T)) as Hchain by by constructor.
    destruct (IH _ _ _ _ Hcw Hchain x Hxw) as (pre & Hpre & Hhead).
    exists (pre ++ [c]). by rewrite <- app_assoc.
Qed.

(** Every drawn node is a list member filed under [ROOT] or under the key
    of a list member. *)
Lemma rendered_resolves stack x :
  x ∈ rendered (fst (appendRoots stack childMap (default [] (childMap !! ROOT)) [])) ->
  x ∈ ns /\ (pid x = ROOT \/ exists p, p ∈ ns /\ pid x = idKey p).
Proof.
  destruct (appendRoots _ _ _ _) as [ws e] eqn:Happ. simpl.
  destruct (appendRoots_spec _ _ _ _ _ _ Happ) as (drawn & ws' & Hpre & Hall & -> & _).
  simpl. intros Hx.
  destruct (rendered_Forall2 _ _ _ _ Hall Hx) as (r & w & Hr & Hrw & Hxw).
  assert (r ∈ default [] (childMap !! ROOT)) as Hroot.
  { destruct Hpre as [k ->]. apply elem_of_app. by left. }
  apply roots_elem in Hroot as [Hpid Hin].
  assert (descends ns x r []) as Hd.
  { eapply created_descends; [done| |done]. by constructor. }
  split; [by eapply descends_in|by eapply descends_parent].
Qed.

(** *** Distinct keys *)

Hypothesis Hkeys : NoDup (map idKey ns).
Hypothesis Hsentinel : ROOT ∉ map idKey ns.

Lemma ns_NoDup : NoDup ns.
Proof. by apply (NoDup_fmap_1 idKey). Qed.

Lemma idKey_inj x y : x ∈ ns -> y ∈ ns -> idKey x = idKey y -> x = y.
Proof.
  clear Hbuild Hsentinel. revert Hkeys.
  induction ns as [|a l IH]; intros Hnd Hx Hy Heq.
  - by apply elem_of_nil in Hx.
  - simpl in Hnd. apply NoDup_cons in Hnd as [Ha Hl].
    apply elem_of_cons in Hx as [->|Hx]; apply elem_of_cons in Hy as [->|Hy].
    + done.
    + exfalso. apply Ha. rewrite Heq. by apply (list_elem_of_fmap_2 idKey).
    + exfalso. apply Ha. rewrite <- Heq. by apply (list_elem_of_fmap_2 idKey).
    + by apply IH.
Qed.

Lemma not_sentinel p : p ∈ ns -> idKey p ≠ ROOT.
Proof.
  intros Hp Heq. apply Hsentinel. rewrite <- Heq.
  by apply (list_elem_of_fmap_2 idKey).
Qed.

(** A node has one chain of ancestors. *)
Lemma chain_unique l1 : forall l2,
  chain ns l1 -> chain ns l2 -> head l1 = head l2 -> l1 = l2.
Proof.
  intros l2 H1. revert l2.
  induction H1 as [r Hr Hpid|c p l Hpl IH Hc Hpid]; intros l2 H2 Hh;
    inversion H2 as [r' Hr' Hpid'|c' p' l' Hpl' Hc' Hpid']; subst;
    simpl in Hh; injection Hh as ->.
  - done.
  - exfalso. apply (not_sentinel p'); [by eapply chain_head_in|congruence].
  - exfalso. apply (not_sentinel p); [by eapply chain_head_in|congruence].
  - f_equal. apply IH; [done|]. simpl. f_equal.
    apply idKey_inj; [by eapply chain_head_in|by eapply chain_head_in|congruence].
Qed.

Lemma chain_NoDup l : chain ns l -> NoDup l.
Proof.
  induction 1 as [r Hr Hpid|c p l Hpl IH Hc Hpid].
  - apply NoDup_singleton.
  - apply NoDup_cons. split; [|done].
    intros Hin. apply list_elem_of_split in Hin as (pre & suf & Heq).
    assert (chain ns (c :: suf)) as Hsuf.
    { apply (chain_suffix pre). by rewrite <- Heq. }
    assert (c :: suf = c :: p :: l) as E.
    { apply chain_unique; [done|by constructor|done]. }
    apply (f_equal length) in E. apply (f_equal length) in Heq.
    rewrite length_app in Heq. simpl in *. lia.
Qed.

Lemma chain_length l : chain ns l -> (length l <= length ns)%nat.
Proof.
  intros Hl. apply submseteq_length, NoDup_submseteq.
  - by apply chain_NoDup.
  - intros x. by apply chain_elem.
Qed.

Lemma descends_unique x c c' T : descends ns x c T -> descends ns x c' T -> c = c'.
Proof.
  intros (pre & Hc & Hh) (pre' & Hc' & Hh').
  assert (pre ++ c :: T = pre' ++ c' :: T) as E.
  { apply chain_unique; [done..|congruence]. }
  apply app_inj_2 in E as [_ E]; [congruence|done].
Qed.

Lemma descends_self_only n c T : chain ns (n :: T) -> ~ descends ns n c (n :: T).
Proof.
  intros Hn (pre & Hc & Hh).
  assert (n :: T = pre ++ c :: n :: T) as E.
  { apply chain_unique; [done..|by rewrite Hh]. }
  apply (f_equal length) in E. rewrite length_app in E. simpl in E. lia.
Qed.

Lemma childrenOf_NoDup key kids : childrenOf childMap key = Ret kids -> NoDup kids.
Proof.
  intros H. destruct (childrenOf_cases _ _ H) as [->| ->]; [constructor|].
  rewrite sortByOrder_perm. apply NoDup_filter, ns_NoDup.
Qed.

Lemma siblings_NoDup (f : Node -> outcome Wrapper) T kids ws :
  Forall2 (fun c w => f c = Ret w) kids ws ->
  NoDup kids ->
  (forall c w x, c ∈ kids -> f c = Ret w -> x ∈ rendered [w] -> descends ns x c T) ->
  (forall c w, c ∈ kids -> f c = Ret w -> NoDup (rendered [w])) ->
  NoDup (rendered ws).
Proof.
  induction 1 as [|c w kids ws Hcw Hall IH]; intros Hnd Hdesc Hone.
  - constructor.
  - apply NoDup_cons in Hnd as [Hc Hnd].
    rewrite rendered_cons. apply NoDup_app. split; [|split].
    + apply (Hone c); [by left|done].
    + intros x Hx Hx'.
      destruct (rendered_Forall2 _ _ _ _ Hall Hx') as (c' & w' & Hc' & Hcw' & Hxw').
      assert (c = c') as ->; [|done].
      apply (descends_unique x _ _ T).
      * apply (Hdesc c w); [by left|done..].
      * apply (Hdesc c' w'); [by right|done..].
    + apply IH; [done| |].
      * intros c' w' x Hc'. apply Hdesc. by right.
      * intros c' w' Hc'. apply Hone. by right.
Qed.

Lemma created_NoDup stack : forall n d w T,
  createNodeWrapper stack childMap n d = Ret w ->
  chain ns (n :: T) -> NoDup (rendered [w]).
Proof.
  induction stack as [|s IH]; intros n d w T Hw Hn; simpl in Hw; [done|].
  destruct (childrenOf childMap (ToString (id n))) as [kids|] eqn:Hkids; [|done].
  simpl in Hw.
  destruct (mapM _ kids) as [ws|] eqn:Hws; [|done]. simpl in Hw.
  injection Hw as <-. rewrite rendered_Wrap. simpl.
  apply mapM_Forall2 in Hws.
  assert (forall c, c ∈ kids -> chain ns (c :: n :: T)) as Hkid.
  { intros c Hc. destruct (childrenOf_elem _ _ _ Hkids Hc). by constructor. }
  apply NoDup_cons. split.
  - intros Hx.
    destruct (rendered_Forall2 _ _ _ _ Hws Hx) as (c & w' & Hc & Hcw & Hxw).
    apply (descends_self_only n c T Hn).
    eapply created_descends; [done|by apply Hkid|done].
  - apply (siblings_NoDup (fun child => createNodeWrapper s childMap child (S d))
             (n :: T) kids ws Hws); [by eapply childrenOf_NoDup| |].
    + intros c w' x Hc Hcw. eapply created_descends; [done|by apply Hkid].
    + intros c w' Hc Hcw. eapply IH; [done|by apply Hkid].
Qed.

Lemma forest_NoDup stack :
  NoDup (rendered (fst (appendRoots stack childMap (default [] (childMap !! ROOT)) []))).
Proof.
  destruct (appendRoots _ _ _ _) as [ws e] eqn:Happ. simpl.
  destruct (appendRoots_spec _ _ _ _ _ _ Happ) as (drawn & ws' & Hpre & Hall & -> & _).
  simpl.
  assert (forall r, r ∈ drawn -> chain ns [r]) as Hroot.
  { intros r Hr. destruct (roots_elem r) as [? ?]; [|by constructor].
    destruct Hpre as [k ->]. apply elem_of_app. by left. }
  apply (siblings_NoDup (fun r => createNodeWrapper stack childMap r 0) [] drawn ws' Hall).
  - destruct Hpre as [k Hk].
    assert (NoDup (drawn ++ k)) as Hnd.
    { rewrite <- Hk, (buildChildMap_default _ _ _ Hbuild), sortByOrder_perm.
      apply NoDup_filter, ns_NoDup. }
    by apply NoDup_app in Hnd as [? _].
  - intros r w x Hr Hrw. eapply created_descends; [done|by apply Hroot].
  - intros r w Hr Hrw. eapply created_NoDup; [done|by apply Hroot].
Qed.

(** *** Termination *)

Hypothesis Hplain : forall n, n ∈ ns -> inherited (idKey n) = None.

Lemma childrenOf_returns n : n ∈ ns -> exists kids, childrenOf childMap (idKey n) = Ret kids.
Proof.
  intros Hn. unfold childrenOf. destruct (childMap !! idKey n); [by eexists|].
  rewrite (Hplain n Hn). by eexists.
Qed.

Lemma createNodeWrapper_returns stack : forall n d T,
  chain ns (n :: T) -> (length ns <= stack + length T)%nat ->
  exists w, createNodeWrapper stack childMap n d = Ret w.
Proof.
  induction stack as [|s IH]; intros n d T Hn Hlen.
  - apply chain_length in Hn. simpl in *. lia.
  - simpl. destruct (childrenOf_returns n) as [kids Hkids]; [by eapply chain_head_in|].
    unfold idKey in Hkids. rewrite Hkids. simpl.
    destruct (mapM_returns (fun child => createNodeWrapper s childMap child (S d)) kids)
      as [ws ->].
    + intros c Hc. apply (IH c (S d) (n :: T)).
      * destruct (childrenOf_elem _ _ _ Hkids Hc). by constructor.
      * simpl. lia.
    + by eexists.
Qed.

Lemma appendRoots_returns stack roots : forall acc,
  (forall r, r ∈ roots -> chain ns [r]) -> (length ns <= stack)%nat ->
  snd (appendRoots stack childMap roots acc) = None.
Proof.
  induction roots as [|r rest IH]; intros acc Hroots Hlen; simpl; [done|].
  destruct (createNodeWrapper_returns stack r O []) as [w ->].
  - apply Hroots. by left.
  - simpl. lia.
  - apply IH; [|done]. intros. apply Hroots. by right.
Qed.

End Forest.

Lemma renderNodes_built stack ns childMap :
  buildChildMap ns = Ret childMap ->
  renderNodes stack ns = appendRoots stack childMap (sortByOrder (filed ROOT ns)) [].
Proof.
  intros Hb. unfold renderNodes. rewrite Hb.
  by rewrite (buildChildMap_default _ _ _ Hb).
Qed.

Lemma createNodeWrapper_S stack childMap n d :
  createNodeWrapper (S stack) childMap n d
  = Js.bind (childrenOf childMap (idKey n)) (fun children =>
      Js.bind (mapM (fun child => createNodeWrapper stack childMap child (S d)) children)
        (fun ws => Ret (Wrap d (createNodeCard n) ws NoLine))).
Proof. reflexivity. Qed.

(** A node that is its own only child exhausts any call stack. *)
Lemma own_child_overflows childMap x :
  childrenOf childMap (idKey x) = Ret [x] ->
  forall stack d, createNodeWrapper stack childMap x d = Throw RangeError.
Proof.
  intros Hx stack. induction stack as [|s IH]; intros d; simpl; [done|].
  unfold idKey in Hx. rewrite Hx. simpl. by rewrite IH.
Qed.

(** ** Claims about the tree build *)

Ltac by_computation := apply (bool_decide_unpack _); vm_compute; exact I.

(** C4. In every bucket of the children index the siblings are in
    non-decreasing effective [order] (a missing [order] counting as 0), the
    bucket holds exactly the nodes filed under its key, and the nodes of one
    [order] value appear in the order they have in the flat list. *)
Theorem siblings_sorted_and_stable (ns : list Node) (childMap : gmap string (list Node))
    (k : string) (b : list Node) :
  buildChildMap ns = Ret childMap ->
  childMap !! k = Some b ->
  StronglySorted byOrder b
  /\ b ≡ₚ filed k ns
  /\ forall z, filter (fun n => effOrder n = z) b
             = filter (fun n => effOrder n = z) (filed k ns).
Proof.
  intros Hb Hk. rewrite (buildChildMap_bucket _ _ _ _ Hb Hk). split_and!.
  - apply sortByOrder_strongly_sorted.
  - apply sortByOrder_perm.
  - intros z. apply sortByOrder_stable.
Qed.

Lemma siblings_sorted_and_stable_witness :
  builtMap siblings !! ROOT
    = Some (map (fun i => default rootNode (siblings !! i)) [3; 1; 2; 0; 5]%nat)
  /\ StronglySorted byOrder (default [] (builtMap siblings !! ROOT))
  /\ filter (fun n => effOrder n = 2) (default [] (builtMap siblings !! ROOT))
     = filter (fun n => effOrder n = 2) (filed ROOT siblings).
Proof.
  split; [vm_compute; reflexivity|].
  destruct (siblings_sorted_and_stable siblings (builtMap siblings) ROOT
              (default [] (builtMap siblings !! ROOT))) as (Hs & _ & Hst).
  - vm_compute. reflexivity.
  - vm_compute. reflexivity.
  - split; [exact Hs|exact (Hst 2)].
Defined.

(** C1, as the code has it.  When the grouping step completes, the bucket
    under a key is a rearrangement of the nodes filed under that key, so
    every list entry sits in exactly one bucket, the one of its parent key
    or of the sentinel.  A node whose parent reference is neither the text
    of the sentinel nor the key of any id in the list is never drawn.  When
    the id keys are pairwise distinct and none is the sentinel, no node is
    drawn twice. *)
Theorem tree_build_files_each_node_once (ns : list Node)
    (childMap : gmap string (list Node)) (stack : nat) :
  buildChildMap ns = Ret childMap ->
  (forall k, default [] (childMap !! k) ≡ₚ filed k ns)
  /\ (forall k n, n ∈ default [] (childMap !! k) <-> pid n = k /\ n ∈ ns)
  /\ (forall n, orphan ns n -> pid n ≠ ROOT -> n ∉ rendered (fst (renderNodes stack ns)))
  /\ (NoDup (map idKey ns) -> ROOT ∉ map idKey ns ->
      NoDup (rendered (fst (renderNodes stack ns)))).
Proof.
  intros Hb. split_and!.
  - intros k. rewrite (buildChildMap_default _ _ _ Hb). apply sortByOrder_perm.
  - intros k n. rewrite (buildChildMap_default _ _ _ Hb), sortByOrder_perm.
    apply (filed_elem ns).
  - intros n [Hnull Hdangling] Hroot Hn.
    unfold renderNodes in Hn. rewrite Hb in Hn.
    destruct (rendered_resolves ns childMap Hb stack n Hn) as [_ [Hr|(p & Hp & Hnp)]].
    + done.
    + apply Hdangling. unfold pid in Hnp. rewrite Hnull in Hnp. rewrite Hnp.
      by apply (list_elem_of_fmap_2 idKey).
  - intros Hkeys Hsentinel. unfold renderNodes. rewrite Hb.
    apply (forest_NoDup ns childMap Hb Hkeys Hsentinel).
Qed.

Lemma tree_build_files_each_node_once_witness :
  default [] (builtMap tangled !! "1") ≡ₚ filed "1" tangled
  /\ rendered (fst (renderNodes 8 tangled)) = [rootNode; childNode]
  /\ NoDup (rendered (fst (renderNodes 8 tangled))).
Proof.
  destruct (tree_build_files_each_node_once tangled (builtMap tangled) 8)
    as (Hperm & _ & _ & Hnodup).
  - vm_compute. reflexivity.
  - split; [exact (Hperm "1")|]. split; [vm_compute; reflexivity|].
    apply Hnodup; by_computation.
Defined.

(** C1 fails as stated: a node whose parent reference is the text "ROOT"
    resolves to no id and is drawn as a root; with a repeated id the child of
    that id is drawn under both holders; and a parent reference naming an
    inherited property stops the grouping step. *)
Lemma tree_build_counterexample :
  (orphan [sentinelChild] sentinelChild
   /\ sentinelChild ∈ rendered (fst (renderNodes 8 [sentinelChild])))
  /\ ~ NoDup (rendered (fst (renderNodes 8 twins)))
  /\ buildChildMap [protoChild] = Throw TypeError.
Proof.
  split_and!.
  - split; [reflexivity|by_computation].
  - by_computation.
  - by_computation.
  - vm_compute. reflexivity.
Qed.

(** C7, as the code has it.  When the id keys are pairwise distinct, none
    is the sentinel, and no parent or id key names an inherited property,
    the build and the recursive render complete on any call stack that
    allows as many nested calls as there are nodes, whatever the parent
    references are (dangling, cyclic). *)
Theorem render_terminates (ns : list Node) (stack : nat) :
  NoDup (map idKey ns) ->
  ROOT ∉ map idKey ns ->
  Forall (fun n => inherited (pid n) = None /\ inherited (idKey n) = None) ns ->
  (length ns <= stack)%nat ->
  snd (renderNodes stack ns) = None.
Proof.
  intros Hkeys Hsentinel Hplain Hstack.
  rewrite Forall_forall in Hplain.
  destruct (buildChildMap_returns ns) as [childMap Hb].
  { intros n Hn. by apply Hplain. }
  unfold renderNodes. rewrite Hb.
  apply (appendRoots_returns ns childMap Hb Hkeys Hsentinel).
  - intros n Hn. by apply Hplain.
  - intros r Hr. destruct (roots_elem ns childMap Hb r Hr). by constructor.
  - done.
Qed.

Lemma render_terminates_witness :
  (length tangled <= 5)%nat /\ snd (renderNodes 5 tangled) = None.
Proof.
  split; [vm_compute; lia|].
  apply (render_terminates tangled 5).
  - by_computation.
  - by_computation.
  - by_computation.
  - vm_compute. lia.
Defined.

Lemma sentinelRoot_overflows stack :
  snd (renderNodes stack [sentinelRoot]) = Some RangeError.
Proof.
  destruct (buildChildMap [sentinelRoot]) as [childMap|] eqn:Hb;
    [|by vm_compute in Hb].
  rewrite (renderNodes_built _ _ _ Hb).
  change (sortByOrder (filed ROOT [sentinelRoot])) with [sentinelRoot].
  simpl. rewrite (own_child_overflows childMap sentinelRoot); [done|].
  unfold childrenOf. by rewrite (buildChildMap_lookup _ _ _ Hb).
Qed.

Lemma mixedIds_overflows stack :
  snd (renderNodes stack mixedIds) = Some RangeError.
Proof.
  destruct (buildChildMap mixedIds) as [childMap|] eqn:Hb; [|by vm_compute in Hb].
  rewrite (renderNodes_built _ _ _ Hb).
  change (sortByOrder (filed ROOT mixedIds)) with [rootNode].
  assert (forall n, idKey n = "1" ->
          childrenOf childMap (idKey n)
          = Ret [plain (Str "1") (Num 1) (Some 0) "text-one"]) as Hkids.
  { intros n ->. unfold childrenOf. by rewrite (buildChildMap_lookup _ _ _ Hb). }
  destruct stack as [|s]; [done|]. cbn [appendRoots].
  rewrite createNodeWrapper_S, (Hkids rootNode eq_refl). cbn [Js.bind mapM].
  by rewrite (own_child_overflows childMap _
                (Hkids (plain (Str "1") (Num 1) (Some 0) "text-one") eq_refl)).
Qed.

(** C7 fails as stated: a single root whose id is the text "ROOT" is its own
    child, and so is the node with id "1" below the node with id 1; both
    lists have unique ids and overflow every call stack.  A parent reference
    naming an inherited property raises a type error. *)
Lemma render_divergence_counterexample :
  (NoDup (map id [sentinelRoot])
   /\ forall stack, snd (renderNodes stack [sentinelRoot]) = Some RangeError)
  /\ (NoDup (map id mixedIds)
      /\ forall stack, snd (renderNodes stack mixedIds) = Some RangeError)
  /\ forall stack, snd (renderNodes stack [protoChild]) = Some TypeError.
Proof.
  split_and!.
  - by_computation.
  - apply sentinelRoot_overflows.
  - by_computation.
  - apply mixedIds_overflows.
  - intros stack. unfold renderNodes. done.
Qed.

(** ** What each step leaves alone *)

Lemma updateDetailPanel_frame st :
  currentTree (updateDetailPanel st) = currentTree st
  /\ currentSelectedId (updateDetailPanel st) = currentSelectedId st
  /\ container (updateDetailPanel st) = container st
  /\ caption (updateDetailPanel st) = caption st
  /\ log (updateDetailPanel st) = log st.
Proof. unfold updateDetailPanel. repeat case_match; done. Qed.

Lemma updateDetailPanel_null st :
  currentSelectedId st = Null -> panel (updateDetailPanel st) = emptied (panel st).
Proof.
  intros H. unfold updateDetailPanel. rewrite H. simpl. by repeat case_match.
Qed.

Lemma updateSelectionHighlight_frame st :
  currentTree (updateSelectionHighlight st) = currentTree st
  /\ currentSelectedId (updateSelectionHighlight st) = currentSelectedId st
  /\ panel (updateSelectionHighlight st) = panel st
  /\ caption (updateSelectionHighlight st) = caption st
  /\ log (updateSelectionHighlight st) = log st.
Proof. unfold updateSelectionHighlight. repeat case_match; done. Qed.

Lemma clearSelection_spec st :
  currentTree (clearSelection st) = currentTree st
  /\ currentSelectedId (clearSelection st) = Null
  /\ panel (clearSelection st) = emptied (panel st)
  /\ caption (clearSelection st) = caption st
  /\ log (clearSelection st) = log st.
Proof.
  unfold clearSelection.
  destruct (updateDetailPanel_frame (updateSelectionHighlight (setSelected Null st)))
    as (-> & Hs & _ & -> & ->).
  destruct (updateSelectionHighlight_frame (setSelected Null st))
    as (-> & Hs' & Hp & -> & ->).
  rewrite updateDetailPanel_null by (by rewrite Hs'). rewrite Hs, Hs', Hp. done.
Qed.

Section ScriptFacts.

Variable stack : nat.
Variable preview : bool.

Lemma renderSubTree_absent st :
  container st = None -> renderSubTree stack st = (st, None).
Proof. intros H. unfold renderSubTree. by rewrite H. Qed.

(** A render keeps the tree and the caption, clears the selection and
    empties the detail panel, and schedules at most the geometry pass. *)
Lemma renderSubTree_present st :
  is_Some (container st) ->
  let st' := fst (renderSubTree stack st) in
  currentTree st' = currentTree st
  /\ currentSelectedId st' = Null
  /\ is_Some (container st')
  /\ panel st' = emptied (panel st)
  /\ caption st' = caption st
  /\ (log st' = log st \/ log st' = log st ++ [AnimationFrame]).
Proof.
  intros [c Hc]. unfold renderSubTree. rewrite Hc.
  destruct st as [t sel c' p cap lg]. simpl in *.
  unfold updateDetailPanel. simpl.
  destruct t as [[sn [[|n ns]|]]|], p as [p|]; simpl;
    try (split_and!; by eauto);
    destruct (renderNodes stack (n :: ns)) as [ws [e|]]; simpl;
    split_and!; by eauto.
Qed.

Lemma renderSubTree_tree st : currentTree (fst (renderSubTree stack st)) = currentTree st.
Proof.
  destruct (container st) as [c|] eqn:Hc.
  - by destruct (renderSubTree_present st) as (? & _); [by rewrite Hc|].
  - by rewrite renderSubTree_absent.
Qed.

Lemma renderSubTree_log st :
  exists l, log (fst (renderSubTree stack st)) = log st ++ l /\ Forall (fun e => silent e = true) l.
Proof.
  destruct (container st) as [c|] eqn:Hc.
  - destruct (renderSubTree_present st) as (_ & _ & _ & _ & _ & [H|H]); [by rewrite Hc| |].
    + exists []. by rewrite app_nil_r.
    + exists [AnimationFrame]. split; [done|]. by repeat constructor.
  - rewrite renderSubTree_absent by done. exists []. by rewrite app_nil_r.
Qed.

End ScriptFacts.

Lemma renderSubTree_content stack st :
  is_Some (container st) ->
  container (fst (renderSubTree stack st)) = Some (drawing stack (currentTree st)).
Proof.
  intros [c Hc]. unfold renderSubTree. rewrite Hc.
  destruct st as [t sel c' p cap lg]. simpl in *.
  unfold updateDetailPanel. simpl.
  destruct t as [[sn [[|n ns]|]]|], p as [p|]; simpl; try done;
    by destruct (renderNodes stack (n :: ns)) as [ws [e|]].
Qed.


(** Induction on wrappers, with the property known for all children. *)
Lemma Wrapper_nested_ind (P : Wrapper -> Prop)
    (step : forall d c ws ln, Forall P ws -> P (Wrap d c ws ln)) :
  forall w, P w.
Proof.
  fix IH 1. intros [d c ws ln]. apply step.
  induction ws as [|x r IHr]; constructor; [apply IH|exact IHr].
Qed.

Lemma cardsOf_mapCard (f : Card -> Card) (w : Wrapper) :
  cardsOf (mapCard f w) = map f (cardsOf w).
Proof.
  induction w as [d c ws ln IH] using Wrapper_nested_ind. simpl. f_equal.
  induction IH as [|x r Hx _ IHr]; simpl; [done|].
  by rewrite map_app, Hx, IHr.
Qed.

Lemma cards_mapCard (f : Card -> Card) (ws : list Wrapper) :
  cards (map (mapCard f) ws) = map f (cards ws).
Proof.
  unfold cards. induction ws as [|w r IH]; simpl; [done|].
  by rewrite map_app, cardsOf_mapCard, IH.
Qed.

(** Marking cards does not change which nodes are drawn. *)
Lemma updateSelectionHighlight_sources st :
  map source (allCards (updateSelectionHighlight st)) = map source (allCards st).
Proof.
  unfold updateSelectionHighlight, allCards.
  destruct (container st) as [[|ws]|] eqn:Hc; simpl; rewrite ?Hc; [done| |done].
  rewrite cards_mapCard, map_map. by apply map_ext.
Qed.

Section ApplyFacts.

Variable stack : nat.
Variable preview : bool.


Lemma applyAndPersist_log form reply st t payload :
  currentTree st = Some t ->
  nullish (currentSelectedId st) = false ->
  readPayload form = Ret payload ->
  exists rest,
    log (fst (applyAndPersistSelectedNode stack form reply st))
    = log st ++ Fetch (PatchNode (sub_name t) (ToString (currentSelectedId st)) payload)
             :: rest
    /\ Forall (fun e => silent e = true) rest.
Proof.
  intros Ht Hsel Hpay. unfold applyAndPersistSelectedNode.
  rewrite Ht, Hsel, Hpay.
  destruct reply as [|[] [|t']]; simpl; try (by exists []).
  match goal with |- context [renderSubTree stack ?s] =>
    destruct (renderSubTree_log stack s) as (l & Hl & Hsilent);
    destruct (renderSubTree stack s) as [st2 [e|]] end; simpl in *.
  - exists l. by rewrite Hl, <- app_assoc.
  - exists l. split; [|done].
    match goal with |- log (updateDetailPanel ?s) = _ =>
      destruct (updateDetailPanel_frame s) as (_ & _ & _ & _ & ->) end.
    simpl. by rewrite Hl, <- app_assoc.
Qed.


End ApplyFacts.

(** ** Claims about the two apply modes *)







(** ** Fresh cards *)

Lemma cards_cons w ws : cards (w :: ws) = cards [w] ++ cards ws.
Proof. unfold cards. simpl. by rewrite app_nil_r. Qed.

Lemma cards_Wrap d c ws ln : cards [Wrap d c ws ln] = c :: cards ws.
Proof. unfold cards. simpl. by rewrite app_nil_r. Qed.

Lemma cards_Forall2 {A : Type} (P : A -> Wrapper -> Prop) (Q : Card -> Prop) l ws :
  Forall2 P l ws ->
  (forall c w, P c w -> Forall Q (cards [w])) ->
  Forall Q (cards ws).
Proof.
  induction 1 as [|c w l ws Hcw _ IH]; intros HQ; [constructor|].
  rewrite cards_cons. apply Forall_app. split; [by eapply HQ|by apply IH].
Qed.

Lemma created_unselected stack : forall childMap n d w,
  createNodeWrapper stack childMap n d = Ret w ->
  Forall (fun c => selected c = false) (cards [w]).
Proof.
  induction stack as [|s IH]; intros childMap n d w Hw; simpl in Hw; [done|].
  destruct (childrenOf childMap (ToString (id n))) as [kids|]; [|done]. simpl in Hw.
  destruct (mapM _ kids) as [ws|] eqn:Hws; [|done]. simpl in Hw.
  injection Hw as <-. rewrite cards_Wrap. constructor; [done|].
  apply mapM_Forall2 in Hws.
  apply (cards_Forall2 (fun child w => createNodeWrapper s childMap child (S d) = Ret w)
           _ kids ws Hws).
  intros c w Hc. by eapply IH.
Qed.

Lemma renderNodes_unselected stack ns :
  Forall (fun c => selected c = false) (cards (fst (renderNodes stack ns))).
Proof.
  unfold renderNodes. destruct (buildChildMap ns) as [childMap|]; [|constructor].
  destruct (appendRoots _ _ _ _) as [ws e] eqn:Happ.
  destruct (appendRoots_spec _ _ _ _ _ _ Happ) as (drawn & ws' & _ & Hall & -> & _).
  simpl.
  apply (cards_Forall2 (fun r w => createNodeWrapper stack childMap r 0 = Ret w)
           _ drawn ws' Hall).
  intros r w Hr. by eapply created_unselected.
Qed.

Lemma renderSubTree_unselected stack st :
  is_Some (container st) ->
  Forall (fun c => selected c = false) (allCards (fst (renderSubTree stack st))).
Proof.
  intros [c Hc]. unfold renderSubTree. rewrite Hc.
  destruct st as [t sel c' p cap lg]. simpl in *.
  unfold updateDetailPanel. simpl.
  destruct t as [[sn [[|n ns]|]]|], p as [p|]; simpl; try constructor;
    pose proof (renderNodes_unselected stack (n :: ns)) as Hfresh;
    destruct (renderNodes stack (n :: ns)) as [ws [e|]]; simpl in *; done.
Qed.

(** ** Claims about selection *)

(** After a highlight refresh a card is marked exactly when its node id,
    as a string, is the string of the selection. *)
Lemma updateSelectionHighlight_marks st c :
  c ∈ allCards (updateSelectionHighlight st) ->
  selected c = true <-> nodeId c = ToString (currentSelectedId st).
Proof.
  unfold updateSelectionHighlight, allCards.
  destruct (container st) as [[|ws]|] eqn:Hc; simpl; rewrite ?Hc;
    try (intros H; by apply elem_of_nil in H).
  rewrite cards_mapCard. intros Hin.
  apply list_elem_of_fmap in Hin as (c0 & -> & _). simpl.
  apply String.eqb_eq.
Qed.

(** Whatever tree a successful persisted apply receives, it ends with a
    selection and without a marked card. *)
Lemma persisted_apply_marks_no_card stack form st t payload t' :
  currentTree st = Some t ->
  nullish (currentSelectedId st) = false ->
  readPayload form = Ret payload ->
  is_Some (container st) ->
  let result := applyAndPersistSelectedNode stack form (Response true (Json t')) st in
  snd result = None ->
  currentSelectedId (fst result) = Str (ToString (currentSelectedId st))
  /\ Forall (fun c => selected c = false) (allCards (fst result)).
Proof.
  intros Ht Hsel Hpay Hc. cbv zeta. unfold applyAndPersistSelectedNode.
  rewrite Ht, Hsel, Hpay.
  match goal with |- context [renderSubTree stack ?s] =>
    pose proof (renderSubTree_unselected stack s Hc) as Hfresh;
    destruct (renderSubTree stack s) as [st2 [e|]] end; simpl in *; [done|].
  intros _.
  match goal with |- context [updateDetailPanel ?s] =>
    destruct (updateDetailPanel_frame s) as (_ & -> & Hcont & _) end.
  split; [done|]. unfold allCards in *. by rewrite Hcont.
Qed.

(** C5, at the input where the code departs from it.  With the scenario tree
    drawn and node 2 selected, its card is the one marked.  After a local
    apply the card of node 2 is marked again.  After a successful persisted
    apply the selection is "2" and names a node of the tree, yet no card is
    marked: [applyAndPersistSelectedNode] sets [currentSelectedId] without
    calling [updateSelectionHighlight]. *)
Theorem persisted_apply_drops_highlight :
  let saved := applyClick 8 formFive (Response true (Json (Some treeX))) selected2 in
  let local := fst (applyLocalChanges 8 false formFive selected2) in
  map nodeId (filter (fun c => selected c = true) (allCards selected2)) = ["2"]
  /\ map nodeId (filter (fun c => selected c = true) (allCards local)) = ["2"]
  /\ currentSelectedId saved = Str "2"
  /\ currentTree saved = Some treeX
  /\ findSelected treeX (currentSelectedId saved) = Some childNode
  /\ map nodeId (allCards saved) = ["1"; "2"]
  /\ filter (fun c => selected c = true) (allCards saved) = [].
Proof. vm_compute. by split_and!. Qed.

Lemma emptied_idem p : emptied (emptied p) = emptied p.
Proof. by destruct p. Qed.

Lemma updateDetailPanel_presence st :
  emptied (panel (updateDetailPanel st)) = emptied (panel st).
Proof.
  unfold updateDetailPanel. destruct (panel st) eqn:E; [|by rewrite E].
  by repeat case_match.
Qed.

Section SelectionFacts.

Variable stack : nat.

(** With nothing selected and the panel showing its empty notice, a render
    changes neither. *)
Lemma renderSubTree_cleared st :
  currentSelectedId st = Null -> panel st = emptied (panel st) ->
  currentSelectedId (fst (renderSubTree stack st)) = Null
  /\ panel (fst (renderSubTree stack st)) = panel st.
Proof.
  intros Hs Hp. destruct (container st) as [c|] eqn:Hc.
  - assert (is_Some (container st)) as Hsome by (rewrite Hc; by eexists).
    destruct (renderSubTree_present stack st Hsome) as (_ & Hs' & _ & Hp' & _).
    split; [done|]. by rewrite Hp', <- Hp.
  - by rewrite renderSubTree_absent.
Qed.

Lemma loadSubTree_cleared choice reply st :
  currentSelectedId st = Null -> panel st = emptied (panel st) ->
  currentSelectedId (loadSubTree stack choice reply st) = Null
  /\ panel (loadSubTree stack choice reply st) = panel st.
Proof.
  intros Hs Hp. unfold loadSubTree.
  destruct choice as [subName|]; [|done].
  destruct (String.eqb subName ""); [done|].
  destruct reply as [|[] [|t]]; try done.
  match goal with |- context [renderSubTree stack ?s] =>
    destruct (renderSubTree_cleared s) as [Hs' Hp']; [done..|];
    destruct (renderSubTree stack s) as [st2 [e|]] end; simpl in *; done.
Qed.

End SelectionFacts.

(** C6. A full re-render of the tree container leaves nothing selected: the
    selection is null, the detail panel shows its empty notice and no card is
    marked.  Choosing a dataset in the selector ends with nothing selected
    and the empty notice, whatever the reply; so does selecting a node first
    and choosing a dataset next.  An upload that succeeds installs the tree
    of the reply with nothing selected. *)
Theorem tree_replacement_clears_selection (stack : nat) (st : State) :
  is_Some (container st) ->
  (let st' := fst (renderSubTree stack st) in
   currentSelectedId st' = Null
   /\ panel st' = emptied (panel st)
   /\ Forall (fun c => selected c = false) (allCards st'))
  /\ (forall choice reply,
        let st' := subSelectChange stack choice reply st in
        currentSelectedId st' = Null /\ panel st' = emptied (panel st))
  /\ (forall node saved choice reply,
        let st' := subSelectChange stack choice reply (cardClick node saved st) in
        currentSelectedId st' = Null /\ panel st' = emptied (panel st))
  /\ (forall fileName t saved,
        let st' := handleExcelFileSelected stack fileName (Response true (Json t)) saved st in
        currentTree st' = t
        /\ currentSelectedId st' = Null
        /\ panel st' = emptied (panel st)).
Proof.
  intros Hc.
  assert (forall s choice reply,
            currentSelectedId (subSelectChange stack choice reply s) = Null
            /\ panel (subSelectChange stack choice reply s) = emptied (panel s)) as Hchange.
  { intros s choice reply. unfold subSelectChange.
    destruct (clearSelection_spec s) as (_ & Hs & Hp & _).
    destruct (loadSubTree_cleared stack choice reply (clearSelection s)) as [-> ->].
    - done.
    - by rewrite Hp, emptied_idem.
    - done. }
  cbv zeta. split; [|split; [|split]].
  - destruct (renderSubTree_present stack st Hc) as (_ & Hs & _ & Hp & _).
    split_and!; [done|done|by apply renderSubTree_unselected].
  - intros choice reply. apply Hchange.
  - intros node saved choice reply.
    destruct (Hchange (cardClick node saved st) choice reply) as [-> ->].
    split; [done|]. unfold cardClick, saveSessionState.
    match goal with |- context [updateDetailPanel ?s] =>
      pose proof (updateDetailPanel_presence s) as Hp;
      destruct (currentTree (updateDetailPanel s)) end.
    + destruct saved; simpl; rewrite Hp;
        by destruct (updateSelectionHighlight_frame (setSelected (id node) st))
          as (_ & _ & -> & _).
    + rewrite Hp.
      by destruct (updateSelectionHighlight_frame (setSelected (id node) st))
        as (_ & _ & -> & _).
  - intros fileName t saved. unfold handleExcelFileSelected.
    match goal with |- context [renderSubTree stack ?s] =>
      assert (is_Some (container s)) as Hc'
        by (destruct st as [? ? ? ? [?|] ?]; simpl in *; done);
      destruct (renderSubTree_present stack s Hc') as (Ht & Hs & _ & Hp & _);
      destruct (renderSubTree stack s) as [st2 [e|]] end; simpl in *.
    + split_and!; [done|done|]. rewrite Hp. by destruct st as [? ? ? ? [?|] ?].
    + rewrite Ht. unfold saveSessionState. destruct t as [t'|]; simpl.
      * destruct saved; simpl; split_and!; try done;
          rewrite Hp; by destruct st as [? ? ? ? [?|] ?].
      * split_and!; [done|done|]. rewrite Hp. by destruct st as [? ? ? ? [?|] ?].
Qed.

Lemma tree_replacement_clears_selection_witness :
  currentSelectedId selected2 = Num 2
  /\ currentSelectedId (fst (renderSubTree 8 selected2)) = Null
  /\ panel (fst (renderSubTree 8 selected2)) = Some PanelEmpty
  /\ currentSelectedId
       (subSelectChange 8 (Some "Y") (Response true (Json (Some (mkTree (Str "Y") (Some tangled)))))
          selected2) = Null.
Proof.
  destruct (tree_replacement_clears_selection 8 selected2) as ((Hs & Hp & _) & Hchange & _).
  - vm_compute. by eexists.
  - split; [vm_compute; reflexivity|]. split; [exact Hs|]. split; [exact Hp|].
    exact (proj1 (Hchange (Some "Y")
                    (Response true (Json (Some (mkTree (Str "Y") (Some tangled))))))).
Defined.

(** ** Claims about start-up *)

Lemma renderSubTree_log_cases stack st :
  log (fst (renderSubTree stack st)) = log st
  \/ log (fst (renderSubTree stack st)) = log st ++ [AnimationFrame].
Proof.
  destruct (container st) as [c|] eqn:Hc.
  - assert (is_Some (container st)) as Hsome by (rewrite Hc; by eexists).
    by destruct (renderSubTree_present stack st Hsome) as (_ & _ & _ & _ & _ & H).
  - rewrite renderSubTree_absent by done. by left.
Qed.

Lemma sameClient_emit st st' e : sameClient st st' -> sameClient st (emit e st').
Proof. by intros (? & ? & ? & ? & ?). Qed.

(** C8, as the code has it.  With its two buttons in the page the start-up
    code calls the restore once: one request for the session state, and
    never an alert.  Without a dataset name in the session no tree is fetched
    and the client state stays as loaded.  With a name the tree of that
    dataset is fetched once, installed and rendered, and when no error was
    logged a present [selected_id] becomes the selection with the detail
    panel showing its node.  When either fetch is rejected, answered with a
    non-2xx status or unreadable, or the session body is [null], the client
    state stays as loaded. *)
Theorem session_restore_at_startup (stack : nat) (page : Page)
    (r1 : Reply (option Session)) (r2 : Reply (option Tree)) :
  hasApplyButton page = true ->
  hasClearButton page = true ->
  let st0 := initialState (hasTreeRoot page) (hasPanel page) (hasCaption page) in
  let st' := fst (startup stack page r1 r2) in
  List.filter isGetState (log st') = [Fetch GetState]
  /\ List.filter isAlert (log st') = []
  /\ (forall s, r1 = Response true (Json (Some s)) ->
        truthy (s_sub_name s) = false ->
        sameClient st0 st' /\ List.filter isGetTree (log st') = [])
  /\ (forall s t, r1 = Response true (Json (Some s)) ->
        truthy (s_sub_name s) = true ->
        r2 = Response true (Json t) ->
        List.filter isGetTree (log st') = [Fetch (GetTree (s_sub_name s))]
        /\ currentTree st' = t
        /\ container st' = container (fst (renderSubTree stack (setTree t st0)))
        /\ (List.filter isConsoleError (log st') = [] ->
            if truthy (s_selected_id s)
            then currentSelectedId st' = s_selected_id s
                 /\ panel st'
                    = (if hasPanel page
                       then Some (match t ≫= (fun t => findSelected t (s_selected_id s)) with
                                  | Some n => PanelForm n
                                  | None => PanelEmpty
                                  end)
                       else None)
            else currentSelectedId st' = Null))
  /\ (unusable r1 = true
      \/ r1 = Response true (Json None)
      \/ (exists s, r1 = Response true (Json (Some s)) /\ unusable r2 = true) ->
      sameClient st0 st').
Proof.
  intros Ha Hc st0 st'. subst st0 st'. unfold startup. rewrite Ha, Hc. simpl.
  set (st1 := if hasSubSelect page then _ else _).
  assert (sameClient (initialState (hasTreeRoot page) (hasPanel page) (hasCaption page)) st1
          /\ List.filter isGetState (log st1) = []
          /\ List.filter isAlert (log st1) = []
          /\ List.filter isGetTree (log st1) = []
          /\ List.filter isConsoleError (log st1) = []
          /\ currentSelectedId st1 = Null) as (Hsame & Hg & Hal & Hgt & Hce & Hsel).
  { subst st1. destruct (hasSubSelect page); by split_and!. }
  clearbody st1.
  unfold restoreSessionState.
  destruct r1 as [|[] [|[s|]]]; simpl;
    try solve [rewrite ?List.filter_app, ?Hg, ?Hal, ?Hgt; simpl;
               split_and!; [done|done|intros; simplify_eq|intros; simplify_eq|
                            intros _; by repeat apply sameClient_emit]].
  destruct (truthy (s_sub_name s)) eqn:Hname; simpl.
  { destruct r2 as [|[] [|t]]; simpl;
      try solve [rewrite ?List.filter_app, ?Hg, ?Hal, ?Hgt; simpl;
                 split_and!; [done|done|intros; simplify_eq; congruence|
                              intros; simplify_eq|
                              intros _; by repeat apply sameClient_emit]].
    set (st2 := setTree t (emit (Fetch (GetTree (s_sub_name s))) (emit (Fetch GetState) st1))).
    assert (container (fst (renderSubTree stack st2))
            = container (fst (renderSubTree stack
                (setTree t (initialState (hasTreeRoot page) (hasPanel page) (hasCaption page))))))
      as Hcont.
    { destruct Hsame as (_ & Hs1 & Hc1 & Hp1 & _).
      unfold renderSubTree. subst st2. simpl. rewrite Hc1. simpl.
      destruct (hasTreeRoot page); [|done]. simpl.
      unfold updateDetailPanel. simpl. rewrite Hp1.
      destruct (hasPanel page), t as [[sn [[|n ns]|]]|]; simpl; try done;
        by destruct (renderNodes stack (n :: ns)) as [ws [e|]]. }
    pose proof (renderSubTree_tree stack st2) as Htree.
    pose proof (renderSubTree_log_cases stack st2) as Hlog.
    assert (panel (fst (renderSubTree stack st2)) = None
            <-> hasPanel page = false) as Hpanel.
    { destruct Hsame as (_ & _ & _ & Hp1 & _).
      destruct (container st2) as [c|] eqn:Hc2.
      - assert (is_Some (container st2)) as Hsome by (rewrite Hc2; by eexists).
        destruct (renderSubTree_present stack st2 Hsome) as (_ & _ & _ & -> & _).
        subst st2. simpl. rewrite Hp1. by destruct (hasPanel page).
      - rewrite renderSubTree_absent by done. subst st2. simpl. rewrite Hp1.
        by destruct (hasPanel page). }
    assert (currentSelectedId (fst (renderSubTree stack st2)) = Null) as Hnull.
    { destruct (container st2) as [c|] eqn:Hc2.
      - assert (is_Some (container st2)) as Hsome by (rewrite Hc2; by eexists).
        by destruct (renderSubTree_present stack st2 Hsome) as (_ & ? & _).
      - by rewrite renderSubTree_absent. }
    destruct (renderSubTree stack st2) as [st3 [e|]]; simpl in *.
    - assert (List.filter isGetState (log st3 ++ [ConsoleError]) = [Fetch GetState]
              /\ List.filter isAlert (log st3 ++ [ConsoleError]) = []
              /\ List.filter isGetTree (log st3 ++ [ConsoleError])
                 = [Fetch (GetTree (s_sub_name s))]
              /\ List.filter isConsoleError (log st3 ++ [ConsoleError]) <> [])
        as (? & ? & ? & ?).
      { destruct Hlog as [-> | ->]; subst st2; simpl;
          rewrite ?List.filter_app, ?Hg, ?Hal, ?Hgt, ?Hce; simpl; by split_and!. }
      split_and!; [done|done|intros; simplify_eq; congruence|
                   intros s' t' ? ? ?; simplify_eq; by split_and!|].
      intros [?|[?|(s' & ? & ?)]]; simplify_eq.
    - assert (forall st4, log st4 = log st3 ->
                List.filter isGetState (log st4) = [Fetch GetState]
                /\ List.filter isAlert (log st4) = []
                /\ List.filter isGetTree (log st4) = [Fetch (GetTree (s_sub_name s))])
        as Hlogs.
      { intros st4 ->. destruct Hlog as [-> | ->]; subst st2; simpl;
          rewrite ?List.filter_app, ?Hg, ?Hal, ?Hgt, ?Hce; simpl; by split_and!. }
      destruct (truthy (s_selected_id s)) eqn:Hsid.
      + destruct (updateDetailPanel_frame (setSelected (s_selected_id s) st3))
          as (Ht4 & Hs4 & Hc4 & _ & Hl4).
        destruct (Hlogs _ Hl4) as (? & ? & ?).
        split_and!; [done|done|intros; simplify_eq; congruence| |
                     intros [?|[?|(s' & ? & ?)]]; simplify_eq].
        intros s' t' ? ? ?; simplify_eq. rewrite Ht4, Hc4. simpl.
        split_and!; [done|done|done|]. intros _. rewrite Hsid, Hs4. simpl.
        split; [done|].
        unfold updateDetailPanel. simpl. rewrite Hsid.
        destruct (panel st3) as [p3|] eqn:Hp3.
        * destruct (hasPanel page).
          -- by destruct (currentTree st3) as [t'|]; simpl;
               [destruct (findSelected _ _)|].
          -- destruct Hpanel as [_ Hpanel]. by specialize (Hpanel eq_refl).
        * simpl. rewrite Hp3. destruct Hpanel as [Hpanel _]. by rewrite Hpanel.
      + destruct (Hlogs st3 eq_refl) as (? & ? & ?).
        split_and!; [done|done|intros; simplify_eq; congruence| |
                     intros [?|[?|(s' & ? & ?)]]; simplify_eq].
        intros s' t' ? ? ?; simplify_eq. split_and!; [done|done|done|].
        intros _. by rewrite Hsid. }
  rewrite ?List.filter_app, ?Hg, ?Hal, ?Hgt; simpl.
  split_and!; [done|done| |intros; simplify_eq; congruence|].
  - intros s' ? ?; simplify_eq. split; [|done].
    by repeat apply sameClient_emit.
  - intros _. by repeat apply sameClient_emit.
Qed.

Lemma session_restore_at_startup_witness :
  (currentTree (fst (startup 8 fullPage (sessionX (Str "2")) (Response true (Json (Some treeX)))))
   = Some treeX
   /\ currentSelectedId
        (fst (startup 8 fullPage (sessionX (Str "2")) (Response true (Json (Some treeX)))))
      = Str "2"
   /\ panel (fst (startup 8 fullPage (sessionX (Str "2")) (Response true (Json (Some treeX)))))
      = Some (PanelForm childNode))
  /\ sameClient (initialState true true true)
       (fst (startup 8 fullPage (sessionX (Str "2")) NetworkFailure)).
Proof.
  split.
  - destruct (session_restore_at_startup 8 fullPage (sessionX (Str "2"))
                (Response true (Json (Some treeX))) eq_refl eq_refl)
      as (_ & _ & _ & Hnamed & _).
    destruct (Hnamed (mkSession (Str "X") (Str "2")) (Some treeX) eq_refl eq_refl eq_refl)
      as (_ & Htree & _ & Hsel).
    split; [exact Htree|]. apply Hsel. vm_compute. reflexivity.
  - destruct (session_restore_at_startup 8 fullPage (sessionX (Str "2"))
                NetworkFailure eq_refl eq_refl)
      as (_ & _ & _ & _ & Hfail).
    apply Hfail. right. right. exists (mkSession (Str "X") (Str "2")). by split.
Defined.

(** C8 fails as stated: when the fetched tree makes the render throw, the
    error is caught and logged like any other, but the tree has already been
    installed, and the roots drawn before the exception stay on the page: the
    client is not left without a dataset. *)
Lemma restore_render_failure_counterexample :
  currentTree (initialState true true true) = None
  /\ (forall stack,
        let st' := fst (startup stack fullPage (sessionX Null)
                          (Response true (Json (Some (mkTree (Str "X") (Some [sentinelRoot])))))) in
        List.filter isConsoleError (log st') = [ConsoleError]
        /\ currentTree st' = Some (mkTree (Str "X") (Some [sentinelRoot])))
  /\ (let st' := fst (startup 64 fullPage (sessionX Null)
                        (Response true (Json (Some strayTree)))) in
      List.filter isConsoleError (log st') = [ConsoleError]
      /\ currentTree st' = Some strayTree
      /\ map nodeId (allCards st') = ["1"; "2"]).
Proof.
  split; [done|]. split.
  - intros stack. cbv zeta. unfold startup, restoreSessionState, renderSubTree. simpl.
    pose proof (sentinelRoot_overflows stack) as Hover.
    destruct (renderNodes stack [sentinelRoot]) as [ws e]. simpl in Hover. subst e.
    simpl. by split_and!.
  - vm_compute. by split_and!.
Qed.

Lemma heap_invariant_start s0 : Heap.invariant s0 s0 ∅.
Proof. split; try done; intros *; by rewrite lookup_empty. Qed.

Lemma heap_pushChild_invariant s0 s childMap r s' childMap' :
  Heap.invariant s0 s childMap ->
  Heap.pushChild s childMap r = Ret (s', childMap') ->
  Heap.invariant s0 s' childMap'.
Proof.
  intros [Hobj Hframe Hdom Hnew Hinj]. unfold Heap.pushChild.
  destruct (childMap !! pid (Heap.objects s r)) as [a|] eqn:Ha.
  - intros [= <- <-]. pose proof (Hnew _ _ Ha) as [Hin Hout].
    split; simpl; try done.
    + intros b Hb. rewrite lookup_alter_ne; [by apply Hframe|]. by intros ->.
    + by rewrite dom_alter_L.
    + intros k a' Hk. rewrite dom_alter_L. by apply (Hnew k).
  - destruct (inherited (pid (Heap.objects s r))); [done|]. intros [= <- <-].
    pose proof (is_fresh (dom (Heap.arrays s))) as Hfresh.
    split; simpl; try done.
    + intros b Hb. rewrite lookup_insert_ne; [by apply Hframe|].
      intros <-. apply Hfresh. by apply Hdom.
    + rewrite dom_insert_L. etrans; [exact Hdom|apply union_subseteq_r].
    + intros k a'. rewrite dom_insert_L.
      destruct (decide (pid (Heap.objects s r) = k)) as [<-|Hk].
      * rewrite lookup_insert_eq. intros [= <-].
        split; [apply elem_of_union; left; by apply elem_of_singleton|].
        intros Hin. apply Hfresh. by apply Hdom.
      * rewrite lookup_insert_ne by done. intros Hk'.
        pose proof (Hnew _ _ Hk') as [? ?].
        split; [apply elem_of_union; by right|done].
    + intros k1 k2 a'.
      destruct (decide (pid (Heap.objects s r) = k1)) as [<-|H1],
               (decide (pid (Heap.objects s r) = k2)) as [<-|H2];
        rewrite ?lookup_insert_eq, ?lookup_insert_ne by done; try done.
      * intros [= <-] Hk2. pose proof (Hnew _ _ Hk2) as [Hin _]. by destruct Hfresh.
      * intros Hk1 [= <-]. pose proof (Hnew _ _ Hk1) as [Hin _]. by destruct Hfresh.
      * apply Hinj.
Qed.

Lemma heap_groupNodes_invariant s0 rs : forall s childMap s' childMap',
  Heap.invariant s0 s childMap ->
  Heap.groupNodes s childMap rs = Ret (s', childMap') ->
  Heap.invariant s0 s' childMap'.
Proof.
  induction rs as [|r rest IH]; intros s childMap s' childMap' Hinv H; simpl in H.
  - by injection H as <- <-.
  - destruct (Heap.pushChild s childMap r) as [[s1 cm1]|] eqn:Hp; [|done].
    simpl in H. eapply IH; [|done]. by eapply heap_pushChild_invariant.
Qed.

Lemma heap_sort_pass_other (f : list Heap.loc -> list Heap.loc)
    (pairs : list (string * Heap.loc)) (arrs : gmap Heap.loc (list Heap.loc)) b :
  b ∉ pairs.*2 ->
  foldr (fun ka acc => alter f (snd ka) acc) arrs pairs !! b = arrs !! b.
Proof.
  induction pairs as [|[k a] rest IH]; simpl; [done|].
  intros Hb. apply not_elem_of_cons in Hb as [Hne Hb].
  rewrite lookup_alter_ne by done. by apply IH.
Qed.

Lemma heap_sort_pass_own (f : list Heap.loc -> list Heap.loc)
    (pairs : list (string * Heap.loc)) (arrs : gmap Heap.loc (list Heap.loc)) b :
  NoDup pairs.*2 -> b ∈ pairs.*2 ->
  foldr (fun ka acc => alter f (snd ka) acc) arrs pairs !! b = f <$> arrs !! b.
Proof.
  induction pairs as [|[k a] rest IH]; simpl; intros Hnd Hb.
  - by apply elem_of_nil in Hb.
  - apply NoDup_cons in Hnd as [Ha Hnd].
    apply elem_of_cons in Hb as [->|Hb].
    + rewrite lookup_alter_eq. by rewrite heap_sort_pass_other.
    + rewrite lookup_alter_ne; [by apply IH|]. by intros ->.
Qed.

Lemma heap_insertSorted_commutes s x l :
  map (Heap.objects s) (Heap.insertSorted s x l)
  = insertSorted (Heap.objects s x) (map (Heap.objects s) l).
Proof.
  induction l as [|y r IH]; simpl; [done|].
  destruct (compareOrder _ _ <=? 0); simpl; [done|]. by rewrite IH.
Qed.

Lemma heap_sortByOrder_commutes s l :
  map (Heap.objects s) (Heap.sortByOrder s l) = sortByOrder (map (Heap.objects s) l).
Proof.
  induction l as [|x r IH]; simpl; [done|].
  by rewrite heap_insertSorted_commutes, IH.
Qed.

(** One iteration on the store does what the iteration on values does. *)
Lemma heap_pushChild_sim s0 s childMap (m : gmap string (list Node)) r s' childMap' :
  Heap.invariant s0 s childMap ->
  (forall k, Heap.view s childMap k = m !! k) ->
  Heap.pushChild s childMap r = Ret (s', childMap') ->
  exists m', pushChild m (Heap.objects s r) = Ret m'
             /\ forall k, Heap.view s' childMap' k = m' !! k.
Proof.
  intros [Hobj Hframe Hdom Hnew Hinj] Hview. unfold Heap.pushChild, pushChild.
  set (n := Heap.objects s r). pose proof (Hview (pid n)) as Hk0.
  unfold Heap.view in Hk0.
  destruct (childMap !! pid n) as [a|] eqn:Ha; simpl in Hk0.
  - intros [= <- <-]. pose proof (Hnew _ _ Ha) as [Hin _].
    apply elem_of_dom in Hin as [l Hl]. rewrite Hl in Hk0. simpl in Hk0.
    rewrite <- Hk0. eexists. split; [done|]. intros k. unfold Heap.view. simpl.
    destruct (decide (pid n = k)) as [<-|Hk].
    + rewrite Ha, lookup_insert_eq. simpl. rewrite lookup_alter_eq, Hl. simpl.
      by rewrite map_app.
    + rewrite lookup_insert_ne by done. rewrite <- Hview. unfold Heap.view.
      destruct (childMap !! k) as [a'|] eqn:Ha'; simpl; [|done].
      rewrite lookup_alter_ne; [done|]. intros <-. apply Hk. by eapply Hinj.
  - rewrite <- Hk0. destruct (inherited (pid n)); [done|]. intros [= <- <-].
    eexists. split; [done|]. intros k. unfold Heap.view. simpl.
    pose proof (is_fresh (dom (Heap.arrays s))) as Hfresh.
    destruct (decide (pid n = k)) as [<-|Hk].
    + rewrite !lookup_insert_eq. simpl. by rewrite lookup_insert_eq.
    + rewrite !lookup_insert_ne by done. rewrite <- Hview. unfold Heap.view.
      destruct (childMap !! k) as [a'|] eqn:Ha'; simpl; [|done].
      rewrite lookup_insert_ne; [done|]. intros <-.
      pose proof (Hnew _ _ Ha') as [Hin _]. by apply Hfresh.
Qed.

Lemma heap_groupNodes_sim s0 rs : forall s childMap (m : gmap string (list Node)) s' childMap',
  Heap.invariant s0 s childMap ->
  (forall k, Heap.view s childMap k = m !! k) ->
  Heap.groupNodes s childMap rs = Ret (s', childMap') ->
  exists m', groupNodes m (map (Heap.objects s0) rs) = Ret m'
             /\ forall k, Heap.view s' childMap' k = m' !! k.
Proof.
  induction rs as [|r rest IH]; intros s childMap m s' childMap' Hinv Hview H;
    simpl in H.
  - injection H as <- <-. by exists m.
  - destruct (Heap.pushChild s childMap r) as [[s1 cm1]|] eqn:Hp; [|done].
    simpl in H.
    destruct (heap_pushChild_sim _ _ _ _ _ _ _ Hinv Hview Hp) as (m1 & Hm1 & Hview1).
    pose proof (heap_pushChild_invariant _ _ _ _ _ _ Hinv Hp) as Hinv1.
    destruct (IH _ _ _ _ _ Hinv1 Hview1 H) as (m' & Hm' & Hview').
    exists m'. split; [|done]. simpl.
    rewrite (Heap.inv_objects _ _ _ Hinv) in Hm1. by rewrite Hm1.
Qed.

(** The build on the store: node objects and every array that existed
    before are as they were, and the bucket arrays lead to the nodes of the
    children index computed on values. *)
Lemma heap_buildChildMap_spec s nodes rs s' childMap :
  Heap.arrays s !! nodes = Some rs ->
  Heap.buildChildMap s nodes = Ret (s', childMap) ->
  Heap.objects s' = Heap.objects s
  /\ (forall b, b ∈ dom (Heap.arrays s) -> Heap.arrays s' !! b = Heap.arrays s !! b)
  /\ exists m, buildChildMap (map (Heap.objects s) rs) = Ret m
               /\ forall k, Heap.view s' childMap k = m !! k.
Proof.
  intros Hrs. unfold Heap.buildChildMap. rewrite Hrs.
  destruct (Heap.groupNodes s ∅ rs) as [[s1 cm1]|] eqn:Hg; [|done].
  simpl. intros [= <- <-].
  pose proof (heap_groupNodes_invariant _ _ _ _ _ _ (heap_invariant_start s) Hg)
    as Hinv.
  destruct (heap_groupNodes_sim s rs s ∅ ∅ s1 cm1 (heap_invariant_start s)) as (m & Hm & Hview);
    [intros k; unfold Heap.view; by rewrite !lookup_empty|done|].
  destruct Hinv as [Hobj Hframe Hdom Hnew Hinj].
  assert (NoDup (map_to_list cm1).*2) as Hnd.
  { apply NoDup_fmap_2_strong; [|apply NoDup_map_to_list].
    intros [k1 a1] [k2 a2] H1 H2. simpl. intros <-.
    apply elem_of_map_to_list in H1, H2. f_equal. by eapply Hinj. }
  split_and!.
  - done.
  - intros b Hb. simpl. rewrite heap_sort_pass_other; [by apply Hframe|].
    intros Hin. apply list_elem_of_fmap in Hin as ([k a] & -> & Hka).
    apply elem_of_map_to_list in Hka. simpl in Hb.
    pose proof (Hnew _ _ Hka) as [_ Hout]. done.
  - exists (sortByOrder <$> m). unfold buildChildMap. rewrite Hm. split; [done|].
    intros k. rewrite lookup_fmap, <- Hview. unfold Heap.view. simpl.
    destruct (cm1 !! k) as [a|] eqn:Ha; simpl; [|done].
    rewrite heap_sort_pass_own; [|done|].
    + destruct (Heap.arrays s1 !! a) as [l|]; simpl; [|done].
      by rewrite heap_sortByOrder_commutes.
    + apply list_elem_of_fmap. exists (k, a). split; [done|].
      by apply elem_of_map_to_list.
Qed.

(** ** Claims about the model under rendering *)


Lemma renderSubTree_twice stack st :
  sameClient (fst (renderSubTree stack st))
             (fst (renderSubTree stack (fst (renderSubTree stack st)))).
Proof.
  destruct (container st) as [c|] eqn:Hc.
  - assert (is_Some (container st)) as Hsome by (rewrite Hc; by eexists).
    destruct (renderSubTree_present stack st Hsome) as (Ht & Hs & Hc1 & Hp & Hcap & _).
    destruct (renderSubTree_present stack _ Hc1) as (Ht' & Hs' & _ & Hp' & Hcap' & _).
    unfold sameClient. split_and!; [done|congruence| |by rewrite Hp', Hp, emptied_idem|done].
    by rewrite !renderSubTree_content, Ht.
  - rewrite !renderSubTree_absent by done. by unfold sameClient.
Qed.

Lemma adjustTreeLines_tree rowRect childrenRect st :
  currentTree (adjustTreeLines rowRect childrenRect st) = currentTree st
  /\ currentSelectedId (adjustTreeLines rowRect childrenRect st) = currentSelectedId st.
Proof. unfold adjustTreeLines. by repeat case_match. Qed.

(** C10. A render reads the model and never writes it.  On the store: the
    build leaves every node object and every array that existed before it,
    the node array included, as they were, all writes going to arrays it
    created, and the bucket arrays hold the children index of the node list.
    On the client state: [renderSubTree] and [adjustTreeLines] return the
    same [currentTree], and rendering a second time changes nothing but the
    log. *)
Theorem render_leaves_model_untouched (stack : nat) (st : State)
    (rowRect childrenRect : list nat -> Rect)
    (s s' : Heap.Store) (nodes : Heap.loc) (rs : list Heap.loc)
    (childMap : gmap string Heap.loc) :
  Heap.arrays s !! nodes = Some rs ->
  Heap.buildChildMap s nodes = Ret (s', childMap) ->
  (Heap.objects s' = Heap.objects s
   /\ Heap.arrays s' !! nodes = Some rs
   /\ (forall b, b ∈ dom (Heap.arrays s) -> Heap.arrays s' !! b = Heap.arrays s !! b)
   /\ exists m, buildChildMap (map (Heap.objects s) rs) = Ret m
                /\ forall k, Heap.view s' childMap k = m !! k)
  /\ currentTree (fst (renderSubTree stack st)) = currentTree st
  /\ currentTree (adjustTreeLines rowRect childrenRect st) = currentTree st
  /\ sameClient (fst (renderSubTree stack st))
                (fst (renderSubTree stack (fst (renderSubTree stack st)))).
Proof.
  intros Hrs Hbuild.
  destruct (heap_buildChildMap_spec s nodes rs s' childMap Hrs Hbuild)
    as (Hobj & Hframe & Hsim).
  split_and!; try done.
  - rewrite Hframe; [done|]. by eapply elem_of_dom_2.
  - apply renderSubTree_tree.
  - apply adjustTreeLines_tree.
  - apply renderSubTree_twice.
Qed.

Lemma render_leaves_model_untouched_witness :
  (exists s' childMap,
     Heap.buildChildMap siblingStore 1%positive = Ret (s', childMap)
     /\ Heap.arrays s' !! 1%positive = Some [1; 2; 3; 4; 5; 6]%positive
     /\ (a ← childMap !! ROOT; Heap.arrays s' !! a) = Some [4; 2; 3; 1; 6]%positive)
  /\ currentTree (fst (renderSubTree 8 selected2)) = Some treeX.
Proof.
  destruct (Heap.buildChildMap siblingStore 1%positive) as [[s' childMap]|] eqn:Hb;
    [|by vm_compute in Hb].
  destruct (render_leaves_model_untouched 8 selected2 (fun _ => mkRect 0 0)
              (fun _ => mkRect 0 0) siblingStore s' 1%positive
              [1; 2; 3; 4; 5; 6]%positive childMap)
    as ((_ & Harr & _) & Htree & _).
  - vm_compute. reflexivity.
  - exact Hb.
  - split; [|exact Htree]. exists s', childMap. split; [done|]. split; [exact Harr|].
    vm_compute in Hb. injection Hb as <- <-. vm_compute. reflexivity.
Defined.


(** * Further properties of the script *)

(** ** The drawn tree mirrors the children index *)

Lemma nodeOf_rendered w : nodeOf w ∈ rendered [w].
Proof. destruct w as [d c ws ln]. rewrite rendered_Wrap. by left. Qed.

Lemma rendered_elem ws x :
  x ∈ rendered ws <-> exists w, w ∈ ws /\ x ∈ rendered [w].
Proof.
  induction ws as [|w r IH].
  - split; [intros H; by apply elem_of_nil in H|].
    intros (w & Hw & _). by apply elem_of_nil in Hw.
  - rewrite rendered_cons, elem_of_app, IH. split.
    + intros [H|(w' & Hw' & H)]; [exists w; split; [by left|done]|].
      exists w'. split; [by right|done].
    + intros (w' & Hw' & H). apply elem_of_cons in Hw' as [->|Hw']; [by left|].
      right. by exists w'.
Qed.

Lemma created_all {A : Type} (P : A -> Wrapper -> Prop) (f : Wrapper -> bool)
    (g : Wrapper -> A) l ws :
  Forall2 P l ws ->
  (forall c w, P c w -> g w = c /\ f w = true) ->
  map g ws = l /\ forallb f ws = true.
Proof.
  intros Hall HP. induction Hall as [|c w l ws Hcw _ IH]; [done|].
  destruct (HP c w Hcw) as [Hg Hf]. destruct IH as [IH1 IH2]. simpl.
  by rewrite Hg, Hf, IH1, IH2.
Qed.

Section Mirror.

Variable ns : list Node.
Variable childMap : gmap string (list Node).
Hypothesis Hbuild : buildChildMap ns = Ret childMap.

Lemma childrenOf_sorted key kids :
  childrenOf childMap key = Ret kids -> kids = sortByOrder (filed key ns).
Proof.
  unfold childrenOf. rewrite (buildChildMap_lookup _ _ _ Hbuild).
  unfold bucket. destruct (filed key ns) as [|x r] eqn:E; simpl.
  - destruct (inherited key) as [[[|?]|]|]; by intros [= <-].
  - by intros [= <-].
Qed.

Lemma created_mirrors stack : forall n d w,
  createNodeWrapper stack childMap n d = Ret w ->
  nodeOf w = n /\ (mirrors ns w && leveled d w = true).
Proof.
  induction stack as [|s IH]; intros n d w Hw; simpl in Hw; [done|].
  destruct (childrenOf childMap (ToString (id n))) as [kids|] eqn:Hkids; [|done].
  simpl in Hw.
  destruct (mapM _ kids) as [ws|] eqn:Hws; [|done]. simpl in Hw.
  injection Hw as <-. apply mapM_Forall2 in Hws.
  destruct (created_all _ (fun w => mirrors ns w && leveled (S d) w) nodeOf
              kids ws Hws) as [Hmap Hall].
  { intros c w Hc. by apply IH. }
  split; [done|]. simpl.
  rewrite bool_decide_true by done.
  rewrite bool_decide_true by (rewrite Hmap; by apply childrenOf_sorted).
  rewrite Nat.eqb_refl. simpl.
  clear -Hall. induction ws as [|w r IHr]; simpl in *; [done|].
  apply andb_true_iff in Hall as [Hw Hr].
  apply andb_true_iff in Hw as [-> ->]. simpl.
  apply andb_true_iff in IHr as [-> ->]; done.
Qed.

Lemma appendRoots_mirrors stack ws e :
  appendRoots stack childMap (sortByOrder (filed ROOT ns)) [] = (ws, e) ->
  map nodeOf ws `prefix_of` sortByOrder (filed ROOT ns)
  /\ (e = None -> map nodeOf ws = sortByOrder (filed ROOT ns))
  /\ forallb (fun w => mirrors ns w && leveled 0 w) ws = true.
Proof.
  intros Happ.
  destruct (appendRoots_spec _ _ _ _ _ _ Happ) as (drawn & ws' & Hpre & Hall & -> & Hnone).
  simpl.
  destruct (created_all _ (fun w => mirrors ns w && leveled 0 w) nodeOf drawn ws' Hall)
    as [Hmap Hm].
  { intros c w Hc. by apply created_mirrors in Hc. }
  rewrite Hmap. split_and!; [done| |done].
  intros He. by apply Hnone.
Qed.

(** In a mirroring wrapper the children of every drawn node are drawn. *)
Lemma mirrors_child (w : Wrapper) : forall p c,
  mirrors ns w = true -> p ∈ rendered [w] ->
  c ∈ ns -> pid c = idKey p -> c ∈ rendered [w].
Proof.
  induction w as [d c0 ws ln IH] using Wrapper_nested_ind.
  intros p c Hm Hp Hc Hpid. simpl in Hm.
  apply andb_true_iff in Hm as [Hm Hws]. apply andb_true_iff in Hm as [_ Hkids].
  apply bool_decide_eq_true in Hkids.
  rewrite rendered_Wrap in *. apply elem_of_cons in Hp as [->|Hp].
  - right. apply rendered_elem.
    assert (c ∈ map nodeOf ws) as Hin.
    { rewrite Hkids, sortByOrder_perm. by apply (filed_elem ns). }
    apply list_elem_of_fmap in Hin as (w' & -> & Hw').
    exists w'. split; [done|apply nodeOf_rendered].
  - right. apply rendered_elem in Hp as (w' & Hw' & Hp).
    apply rendered_elem. exists w'. split; [done|].
    rewrite Forall_forall in IH. apply (IH w' Hw' p c); try done.
    rewrite forallb_forall in Hws. apply Hws. by apply list_elem_of_In.
Qed.

End Mirror.

Lemma renderNodes_mirrors stack ns :
  map nodeOf (fst (renderNodes stack ns)) `prefix_of` sortByOrder (filed ROOT ns)
  /\ (snd (renderNodes stack ns) = None ->
      map nodeOf (fst (renderNodes stack ns)) = sortByOrder (filed ROOT ns))
  /\ forallb (fun w => mirrors ns w && leveled 0 w) (fst (renderNodes stack ns)) = true.
Proof.
  destruct (buildChildMap ns) as [childMap|err] eqn:Hb.
  - rewrite (renderNodes_built _ _ _ Hb).
    destruct (appendRoots _ _ _ _) as [ws e] eqn:Happ. simpl.
    by apply (appendRoots_mirrors ns childMap Hb stack).
  - unfold renderNodes. rewrite Hb. simpl. split_and!; [apply prefix_nil|done|done].
Qed.

Lemma forallb_and {A : Type} (f g : A -> bool) l :
  forallb (fun x => f x && g x) l = true ->
  forallb f l = true /\ forallb g l = true.
Proof.
  induction l as [|x r IH]; simpl; [done|].
  intros H. apply andb_true_iff in H as [Hx Hr].
  apply andb_true_iff in Hx as [-> ->]. by destruct (IH Hr) as [-> ->].
Qed.

(** X1. The wrappers appended to the container are, in order, those of the
    sorted root bucket (all of it when the render completes, a leading part
    when it is interrupted), and below every drawn card the child wrappers
    are those of the nodes filed under that card's node id, in sorted order,
    each with the card [createNodeCard] makes for its node. *)
Theorem drawn_tree_follows_sorted_buckets (stack : nat) (ns : list Node) :
  map nodeOf (fst (renderNodes stack ns)) `prefix_of` sortByOrder (filed ROOT ns)
  /\ (snd (renderNodes stack ns) = None ->
      map nodeOf (fst (renderNodes stack ns)) = sortByOrder (filed ROOT ns))
  /\ forallb (mirrors ns) (fst (renderNodes stack ns)) = true.
Proof.
  destruct (renderNodes_mirrors stack ns) as (Hpre & Hall & Hm).
  apply forallb_and in Hm as [Hm _]. by split_and!.
Qed.

Lemma drawn_tree_follows_sorted_buckets_witness :
  snd (renderNodes 8 grove) = None
  /\ map nodeOf (fst (renderNodes 8 grove))
     = [plain (Num 1) Null (Some 0) "a"; plain (Str "x") Null (Some 0) "x"]
  /\ forallb (mirrors grove) (fst (renderNodes 8 grove)) = true.
Proof.
  destruct (drawn_tree_follows_sorted_buckets 8 grove) as (_ & Hall & Hm).
  split; [vm_compute; reflexivity|]. split; [|exact Hm].
  rewrite Hall; vm_compute; reflexivity.
Defined.

(** X2. Every wrapper's depth class is its nesting level: 0 for the wrappers
    appended to the container, one more for each [.tree-children] container
    in between. *)
Theorem wrapper_depth_is_nesting_level (stack : nat) (ns : list Node) :
  forallb (leveled 0) (fst (renderNodes stack ns)) = true.
Proof.
  destruct (renderNodes_mirrors stack ns) as (_ & _ & Hm).
  by apply forallb_and in Hm as [_ Hl].
Qed.

Lemma rendered_of_chain ns ws :
  map nodeOf ws = sortByOrder (filed ROOT ns) ->
  forallb (mirrors ns) ws = true ->
  forall l, chain ns l -> forall n, head l = Some n -> n ∈ rendered ws.
Proof.
  intros Hroots Hm l Hl.
  induction Hl as [r Hr Hpid|c p l Hpl IH Hc Hpid]; intros n [= <-].
  - assert (r ∈ map nodeOf ws) as Hin.
    { rewrite Hroots, sortByOrder_perm. by apply (filed_elem ns). }
    apply list_elem_of_fmap in Hin as (w & -> & Hw).
    apply rendered_elem. exists w. split; [done|apply nodeOf_rendered].
  - specialize (IH p eq_refl). apply rendered_elem in IH as (w & Hw & Hp).
    apply rendered_elem. exists w. split; [done|].
    apply (mirrors_child ns w p c); try done.
    rewrite forallb_forall in Hm. apply Hm. by apply list_elem_of_In.
Qed.

(** X3. A render that completes leaves out no node that parent references link
    to a root: roots, their children, and so on down are all drawn. *)
Theorem completed_render_draws_every_linked_node (stack : nat) (ns : list Node)
    (n : Node) (ancestors : list Node) :
  snd (renderNodes stack ns) = None ->
  chain ns (n :: ancestors) ->
  n ∈ rendered (fst (renderNodes stack ns)).
Proof.
  intros Hdone Hchain.
  destruct (renderNodes_mirrors stack ns) as (_ & Hall & Hm).
  apply forallb_and in Hm as [Hm _].
  by apply (rendered_of_chain ns _ (Hall Hdone) Hm (n :: ancestors)).
Qed.

Lemma completed_render_draws_every_linked_node_witness :
  childNode ∈ rendered (fst (renderNodes 8 tangled)).
Proof.
  apply (completed_render_draws_every_linked_node 8 tangled childNode [rootNode]).
  - vm_compute. reflexivity.
  - apply chain_step; [apply chain_root|..]; first [reflexivity|by_computation].
Defined.

Lemma renderNodes_resolves stack ns x :
  x ∈ rendered (fst (renderNodes stack ns)) -> x ∈ ns.
Proof.
  unfold renderNodes. destruct (buildChildMap ns) as [childMap|] eqn:Hb.
  - intros Hx. by destruct (rendered_resolves ns childMap Hb stack x Hx).
  - intros Hx. by apply elem_of_nil in Hx.
Qed.

(** X4. For a dataset that keeps the data-model invariant the render completes
    on a call stack that allows as many nested calls as there are nodes, and
    draws every node exactly once. *)
Theorem forest_is_drawn_exactly_once (stack : nat) (ns : list Node) :
  forest ns ->
  (length ns <= stack)%nat ->
  snd (renderNodes stack ns) = None
  /\ rendered (fst (renderNodes stack ns)) ≡ₚ ns.
Proof.
  intros (Hkeys & Hsentinel & Hplain & Hlinked) Hstack.
  rewrite Forall_forall in Hplain.
  destruct (buildChildMap_returns ns) as [childMap Hb].
  { intros n Hn. by apply Hplain. }
  assert (snd (renderNodes stack ns) = None) as Hdone.
  { unfold renderNodes. rewrite Hb.
    apply (appendRoots_returns ns childMap Hb Hkeys Hsentinel).
    - intros n Hn. by apply Hplain.
    - intros r Hr. destruct (roots_elem ns childMap Hb r Hr). by constructor.
    - done. }
  split; [done|].
  apply NoDup_Permutation.
  - unfold renderNodes. rewrite Hb. apply (forest_NoDup ns childMap Hb Hkeys Hsentinel).
  - by apply (NoDup_fmap_1 idKey).
  - intros x. split; [apply renderNodes_resolves|].
    intros Hx. destruct (Hlinked x Hx) as [l Hl].
    destruct (renderNodes_mirrors stack ns) as (_ & Hall & Hm).
    apply forallb_and in Hm as [Hm _].
    by apply (rendered_of_chain ns _ (Hall Hdone) Hm (x :: l)).
Qed.

Lemma grove_forest : forest grove.
Proof.
  split_and!; try by_computation.
  intros n Hn. repeat (apply elem_of_cons in Hn as [->|Hn]).
  - exists [plain (Num 1) Null (Some 0) "a"].
    apply chain_step; [apply chain_root|..]; first [reflexivity|by_computation].
  - exists []. apply chain_root; first [reflexivity|by_computation].
  - exists [plain (Num 1) Null (Some 0) "a"].
    apply chain_step; [apply chain_root|..]; first [reflexivity|by_computation].
  - exists []. apply chain_root; first [reflexivity|by_computation].
  - exists [plain (Num 3) (Num 1) (Some 0) "c"; plain (Num 1) Null (Some 0) "a"].
    apply chain_step; [apply chain_step; [apply chain_root|..]|..];
      first [reflexivity|by_computation].
  - by apply elem_of_nil in Hn.
Defined.

Lemma forest_is_drawn_exactly_once_witness :
  snd (renderNodes 5 grove) = None
  /\ rendered (fst (renderNodes 5 grove)) ≡ₚ grove.
Proof.
  apply (forest_is_drawn_exactly_once 5 grove); [exact grove_forest|vm_compute; lia].
Defined.

(** ** Selection marks *)

Lemma at_most_one_with_key {A B : Type} (f : A -> B) (P : A -> Prop)
    `{forall x, Decision (P x)} (k : B) (l : list A) :
  NoDup (map f l) ->
  (forall x, x ∈ l -> P x -> f x = k) ->
  (length (filter P l) <= 1)%nat.
Proof.
  induction l as [|a r IH]; simpl; intros Hnd Hk; [lia|].
  apply NoDup_cons in Hnd as [Ha Hnd]. rewrite filter_cons.
  assert (length (filter P r) <= 1)%nat as Hr.
  { apply IH; [done|]. intros x Hx. apply Hk. by right. }
  destruct (decide (P a)) as [Hpa|]; [|done]. simpl.
  assert (filter P r = []) as ->; [|simpl; lia].
  destruct (filter P r) as [|b r'] eqn:E; [done|]. exfalso.
  assert (b ∈ filter P r) as Hb by (rewrite E; by left).
  apply list_elem_of_filter in Hb as [Hpb Hb]. apply Ha.
  rewrite (Hk a) by (by left || done). rewrite <- (Hk b) by (by right || done).
  by apply (list_elem_of_fmap_2 f).
Qed.

Lemma updateSelectionHighlight_cards st :
  allCards (updateSelectionHighlight st)
  = map (highlight (currentSelectedId st)) (allCards st).
Proof.
  unfold updateSelectionHighlight, allCards.
  destruct (container st) as [[|ws]|] eqn:Hc; simpl; rewrite ?Hc; [done| |done].
  apply cards_mapCard.
Qed.

(** X5. After a highlight refresh the cards are the same cards of the same
    nodes, a card is marked exactly when its [data-node-id] is the string of
    the selection, and when the ids on the page are distinct at most one
    card is marked. *)
Theorem highlight_marks_cards_matching_selection (st : State) :
  let st' := updateSelectionHighlight st in
  map nodeId (allCards st') = map nodeId (allCards st)
  /\ map source (allCards st') = map source (allCards st)
  /\ (forall c, c ∈ allCards st' ->
        selected c = true <-> nodeId c = ToString (currentSelectedId st))
  /\ (NoDup (map nodeId (allCards st)) ->
      (length (filter (fun c => selected c = true) (allCards st')) <= 1)%nat).
Proof.
  cbv zeta. split_and!.
  - rewrite updateSelectionHighlight_cards, map_map. by apply map_ext.
  - apply updateSelectionHighlight_sources.
  - apply updateSelectionHighlight_marks.
  - intros Hnd.
    apply (at_most_one_with_key nodeId _ (ToString (currentSelectedId st))).
    + rewrite updateSelectionHighlight_cards, map_map.
      erewrite map_ext; [exact Hnd|done].
    + intros c Hc. by apply updateSelectionHighlight_marks.
Qed.

Lemma highlight_marks_cards_matching_selection_witness :
  (length (filter (fun c => selected c = true)
                  (allCards (updateSelectionHighlight (setSelected (Str "1") drawnX))))
   <= 1)%nat.
Proof.
  destruct (highlight_marks_cards_matching_selection (setSelected (Str "1") drawnX))
    as (_ & _ & _ & Hone).
  apply Hone. by_computation.
Defined.

Lemma mirrors_cards ns (w : Wrapper) :
  mirrors ns w = true ->
  Forall (fun c => c = createNodeCard (source c)) (cardsOf w).
Proof.
  induction w as [d c ws ln IH] using Wrapper_nested_ind. simpl.
  intros Hm. apply andb_true_iff in Hm as [Hm Hws].
  apply andb_true_iff in Hm as [Hc _]. apply bool_decide_eq_true in Hc.
  constructor; [done|].
  induction IH as [|w r Hw _ IHr]; simpl in *; [constructor|].
  apply andb_true_iff in Hws as [Hw' Hr].
  apply Forall_app. split; [by apply Hw|by apply IHr].
Qed.

Lemma mirrors_all_cards ns ws :
  forallb (mirrors ns) ws = true ->
  Forall (fun c => c = createNodeCard (source c)) (cards ws).
Proof.
  unfold cards. induction ws as [|w r IH]; simpl; [constructor|].
  intros H. apply andb_true_iff in H as [Hw Hr].
  apply Forall_app. split; [by eapply mirrors_cards|by apply IH].
Qed.

Lemma filter_only {A : Type} `{EqDecision A} (x : A) (l : list A) :
  NoDup l -> x ∈ l -> filter (fun y => y = x) l = [x].
Proof.
  induction l as [|a r IH]; intros Hnd Hx; [by apply elem_of_nil in Hx|].
  apply NoDup_cons in Hnd as [Ha Hnd]. rewrite filter_cons.
  destruct (decide (a = x)) as [->|Hne].
  - f_equal. destruct (filter (λ y, y = x) r) as [|b r'] eqn:E; [done|].
    assert (b ∈ filter (λ y, y = x) r) as Hb by (rewrite E; by left).
    apply list_elem_of_filter in Hb as [-> Hb]. done.
  - apply IH; [done|]. apply elem_of_cons in Hx as [->|Hx]; done.
Qed.

Lemma marked_sources (P : Card -> Prop) `{forall c, Decision (P c)} (n : Node)
    (h : Card -> Card) (cs : list Card) :
  (forall c, c ∈ cs -> source (h c) = source c /\ (P (h c) <-> source c = n)) ->
  map source (filter P (map h cs)) = filter (fun x => x = n) (map source cs).
Proof.
  induction cs as [|c r IH]; intros Hcs; [done|].
  destruct (Hcs c) as [Hs Hp]; [by left|].
  assert (map source (filter P (map h r)) = filter (fun x => x = n) (map source r))
    as IH' by (apply IH; intros c' Hc'; apply Hcs; by right).
  change (map h (c :: r)) with (h c :: map h r).
  change (map source (c :: r)) with (source c :: map source r).
  rewrite !filter_cons.
  destruct (decide (P (h c))) as [Hy|Hn], (decide (source c = n)) as [Hy'|Hn'].
  - change (map source (h c :: filter P (map h r)))
      with (source (h c) :: map source (filter P (map h r))).
    by rewrite Hs, IH'.
  - by apply Hp in Hy.
  - by apply Hp in Hy'.
  - done.
Qed.

Lemma find_by_key (ns : list Node) (n : Node) :
  NoDup (map idKey ns) -> n ∈ ns -> List.find (sameId (id n)) ns = Some n.
Proof.
  induction ns as [|a r IH]; intros Hnd Hn; [by apply elem_of_nil in Hn|].
  simpl in Hnd. apply NoDup_cons in Hnd as [Ha Hnd]. simpl.
  unfold sameId at 1. destruct (String.eqb_spec (ToString (id a)) (ToString (id n))) as [E|E].
  - apply elem_of_cons in Hn as [->|Hn]; [done|]. exfalso. apply Ha.
    unfold idKey at 1. rewrite E. by apply (list_elem_of_fmap_2 idKey).
  - apply elem_of_cons in Hn as [->|Hn]; [done|]. by apply IH.
Qed.

(** X6. After a dataset with distinct id keys is rendered, a click on the card
    of a drawn node selects that node's id, marks that card and no other,
    shows the node in the detail form unless its id is falsy (0 or the empty
    text), and posts the dataset name with the id as a string; only a
    rejected post adds a console error. *)
Theorem card_click_selects_exactly_that_node (stack : nat) (st0 : State) (t : Tree)
    (ns : list Node) (n : Node) (reply : Reply unit) :
  currentTree st0 = Some t ->
  nodes t = Some ns ->
  NoDup (map idKey ns) ->
  ROOT ∉ map idKey ns ->
  is_Some (container st0) ->
  let st := fst (renderSubTree stack st0) in
  n ∈ map source (allCards st) ->
  let st' := cardClick n reply st in
  currentSelectedId st' = id n
  /\ map source (filter (fun c => selected c = true) (allCards st')) = [n]
  /\ panel st' = match panel st0 with
                 | Some _ => Some (if truthy (id n) then PanelForm n else PanelEmpty)
                 | None => None
                 end
  /\ log st' = log st ++ Fetch (PostState (sub_name t) (Str (idKey n)))
                      :: (if reply is NetworkFailure then [ConsoleError] else []).
Proof.
  intros Ht Hns Hkeys Hsentinel Hc. cbv zeta.
  destruct (renderSubTree_present stack st0 Hc) as (Ht1 & _ & Hc1 & Hp1 & _).
  pose proof (renderSubTree_content stack st0 Hc) as Hdraw.
  set (st := fst (renderSubTree stack st0)) in *.
  rewrite Ht in Ht1, Hdraw. intros Hn.
  assert (allCards st = cards (fst (renderNodes stack ns)) /\ ns <> []) as [Hcards Hne].
  { unfold allCards in *. rewrite Hdraw in *. simpl in *.
    destruct t as [sn tn]. simpl in *. subst tn.
    destruct ns; [by apply elem_of_nil in Hn|done]. }
  rewrite Hcards in Hn.
  assert (n ∈ ns) as Hin by (by apply (renderNodes_resolves stack)).
  assert (NoDup (rendered (fst (renderNodes stack ns)))) as Hnd.
  { unfold renderNodes. destruct (buildChildMap ns) as [childMap|] eqn:Hb; [|constructor].
    apply (forest_NoDup ns childMap Hb Hkeys Hsentinel). }
  assert (Forall (fun c => c = createNodeCard (source c)) (cards (fst (renderNodes stack ns))))
    as Hfresh.
  { apply (mirrors_all_cards ns).
    destruct (renderNodes_mirrors stack ns) as (_ & _ & Hm).
    by apply forallb_and in Hm as [Hm _]. }
  set (st1 := updateSelectionHighlight (setSelected (id n) st)).
  assert (allCards st1 = map (highlight (id n)) (cards (fst (renderNodes stack ns))))
    as Hcards1.
  { subst st1. rewrite updateSelectionHighlight_cards. simpl.
    change (allCards (setSelected (id n) st)) with (allCards st). by rewrite Hcards. }
  destruct (updateSelectionHighlight_frame (setSelected (id n) st))
    as (Ht2 & Hs2 & Hp2 & _ & Hl2). fold st1 in Ht2, Hs2, Hp2, Hl2. simpl in *.
  destruct (updateDetailPanel_frame st1) as (Ht3 & Hs3 & Hc3 & _ & Hl3).
  assert (panel (updateDetailPanel st1)
          = match panel st0 with
            | Some _ => Some (if truthy (id n) then PanelForm n else PanelEmpty)
            | None => None
            end) as Hpanel.
  { unfold updateDetailPanel. rewrite Hp2, Hp1, Ht2, Ht1, Hs2.
    destruct (panel st0); simpl; [|by rewrite Hp2, Hp1].
    destruct (truthy (id n)); [|done].
    unfold findSelected. rewrite Hns, (find_by_key ns n Hkeys Hin). done. }
  assert (allCards (updateDetailPanel st1) = allCards st1) as Hcards3.
  { unfold allCards. by rewrite Hc3. }
  assert (map source (filter (fun c => selected c = true) (allCards (updateDetailPanel st1)))
          = [n]) as Hmarked.
  { rewrite Hcards3, Hcards1.
    rewrite (marked_sources _ n).
    - apply filter_only; [exact Hnd|exact Hn].
    - intros c Hc'. split; [done|]. simpl.
      rewrite Forall_forall in Hfresh. rewrite (Hfresh c Hc') at 1. simpl.
      rewrite String.eqb_eq. split.
      + intros Hk. apply (idKey_inj ns Hkeys); [|done|done].
        apply (renderNodes_resolves stack). apply list_elem_of_fmap. by exists c.
      + by intros ->. }
  unfold cardClick. fold st1. rewrite Ht3, Ht2, Ht1. unfold saveSessionState.
  destruct reply; simpl; rewrite ?Hs3, ?Hs2, ?Hl3, ?Hl2, <- ?app_assoc;
    split_and!; done.
Qed.

Lemma card_click_selects_exactly_that_node_witness :
  map nodeId (filter (fun c => selected c = true)
                     (allCards (cardClick childNode NetworkFailure drawnX))) = ["2"]
  /\ map source (filter (fun c => selected c = true)
                        (allCards (cardClick childNode NetworkFailure drawnX)))
     = [childNode]
  /\ panel (cardClick childNode NetworkFailure drawnX) = Some (PanelForm childNode).
Proof.
  split; [vm_compute; reflexivity|].
  assert (is_Some (container (setTree (Some treeX) (initialState true true true))))
    as Hc by (vm_compute; by eexists).
  assert (NoDup (map idKey [rootNode; childNode])) as Hkeys by by_computation.
  assert (ROOT ∉ map idKey [rootNode; childNode]) as Hsentinel by by_computation.
  assert (childNode ∈ map source (allCards drawnX)) as Hdrawn by by_computation.
  destruct (card_click_selects_exactly_that_node 8
              (setTree (Some treeX) (initialState true true true)) treeX
              [rootNode; childNode] childNode NetworkFailure
              eq_refl eq_refl Hkeys Hsentinel Hc Hdrawn)
    as (_ & Hmarked & Hpanel & _).
  split; [exact Hmarked|exact Hpanel].
Defined.

(** X7. A selection that is falsy without being null (the number 0, the empty
    text) is treated unevenly: the detail panel shows its empty notice, local
    apply and reset return at once without any effect, yet persisted apply
    goes on and sends its PATCH for that id. *)
Theorem falsy_selection_is_editable_only_through_the_server
    (stack : nat) (preview : bool) (form : Form) (choice : option string)
    (reloaded reply : Reply (option Tree)) (st : State) (t : Tree) (payload : Payload) :
  currentTree st = Some t ->
  truthy (currentSelectedId st) = false ->
  nullish (currentSelectedId st) = false ->
  readPayload form = Ret payload ->
  panel (updateDetailPanel st) = emptied (panel st)
  /\ applyLocalChanges stack preview form st = (st, None)
  /\ resetSelectedNode stack choice reloaded st = st
  /\ exists rest,
       log (fst (applyAndPersistSelectedNode stack form reply st))
       = log st ++ Fetch (PatchNode (sub_name t) (ToString (currentSelectedId st)) payload)
                :: rest.
Proof.
  intros Ht Hfalsy Hsel Hpay. split_and!.
  - unfold updateDetailPanel. rewrite Ht, Hfalsy.
    destruct (panel st) as [p|] eqn:Hp; simpl; by rewrite ?Hp.
  - unfold applyLocalChanges. by rewrite Ht, Hfalsy.
  - unfold resetSelectedNode. by rewrite Ht, Hfalsy.
  - destruct (applyAndPersist_log stack form reply st t payload Ht Hsel Hpay)
      as (rest & Hlog & _).
    by exists rest.
Qed.

Lemma falsy_selection_is_editable_only_through_the_server_witness :
  applyLocalChanges 8 true formFive (setSelected (Num 0) drawnX)
  = (setSelected (Num 0) drawnX, None)
  /\ exists rest,
       log (fst (applyAndPersistSelectedNode 8 formFive NetworkFailure
                   (setSelected (Num 0) drawnX)))
       = log (setSelected (Num 0) drawnX)
         ++ Fetch (PatchNode (Str "X") "0"
                     (mkPayload "Child" "PART" None (Some "steel") (Some (Int 5))))
            :: rest.
Proof.
  destruct (falsy_selection_is_editable_only_through_the_server 8 true formFive None
              NetworkFailure NetworkFailure (setSelected (Num 0) drawnX) treeX
              (mkPayload "Child" "PART" None (Some "steel") (Some (Int 5))))
    as (_ & Hlocal & _ & Hsent);
    [vm_compute; reflexivity..|].
  split; [exact Hlocal|exact Hsent].
Defined.

(** X8. Clearing the selection (also what a click on the tree background does)
    sends nothing and keeps the dataset: the selection becomes null and the
    panel shows its empty notice.  The highlight refresh then compares each
    card with the string of [null]: a card stays or becomes marked exactly
    when its node id reads "null". *)
Theorem clear_selection_is_local_and_marks_only_null_ids (st : State) :
  let st' := clearSelection st in
  currentTree st' = currentTree st
  /\ currentSelectedId st' = Null
  /\ panel st' = emptied (panel st)
  /\ log st' = log st
  /\ map source (allCards st') = map source (allCards st)
  /\ forall c, c ∈ allCards st' -> selected c = true <-> nodeId c = "null".
Proof.
  cbv zeta. destruct (clearSelection_spec st) as (Ht & Hs & Hp & _ & Hl).
  assert (allCards (clearSelection st)
          = allCards (updateSelectionHighlight (setSelected Null st))) as Hcards.
  { unfold clearSelection, allCards.
    by destruct (updateDetailPanel_frame (updateSelectionHighlight (setSelected Null st)))
      as (_ & _ & -> & _). }
  split_and!; try done.
  - rewrite Hcards. apply (updateSelectionHighlight_sources (setSelected Null st)).
  - intros c. rewrite Hcards. intros Hc.
    apply (updateSelectionHighlight_marks (setSelected Null st) c Hc).
Qed.

(** ** Loading, resetting and uploading *)

Lemma renderSubTree_caption_kept stack st :
  caption (fst (renderSubTree stack st)) = caption st.
Proof.
  destruct (container st) as [c|] eqn:Hc.
  - assert (is_Some (container st)) as Hsome by (rewrite Hc; by eexists).
    by destruct (renderSubTree_present stack st Hsome) as (_ & _ & _ & _ & ? & _).
  - by rewrite renderSubTree_absent.
Qed.

(** Whether a render throws depends on the tree and on the container being
    in the page, on nothing else. *)
Lemma renderSubTree_error_same stack s1 s2 :
  currentTree s1 = currentTree s2 ->
  (container s1 = None <-> container s2 = None) ->
  snd (renderSubTree stack s1) = snd (renderSubTree stack s2).
Proof.
  intros Ht Hc. unfold renderSubTree.
  destruct (container s1) as [c1|], (container s2) as [c2|];
    try done; try (by destruct Hc as [H1 H2]; (specialize (H1 eq_refl) || specialize (H2 eq_refl))).
  destruct s1 as [t1 sel1 c1' p1 cap1 lg1], s2 as [t2 sel2 c2' p2 cap2 lg2].
  simpl in *. subst t2. unfold updateDetailPanel. simpl.
  destruct t1 as [[sn [[|n ns]|]]|], p1 as [?|], p2 as [?|]; simpl; try done;
    by destruct (renderNodes stack (n :: ns)) as [ws [e|]].
Qed.

(** X9. [loadSubTree] with a dataset chosen sends one request, for that
    dataset's tree.  When the reply is unusable the client keeps its tree,
    selection, drawing and panel, the caption reports the failure and the
    error goes to the console.  When the reply carries a tree it replaces
    the client's tree; the caption reports success unless rendering that
    tree throws, in which case it reports a failure although the new tree
    stays installed.  Without a selector, or with an empty choice, nothing
    happens. *)
Theorem load_sub_tree_outcomes (stack : nat) (name : string)
    (reply : Reply (option Tree)) (st : State) :
  name <> "" ->
  let st' := loadSubTree stack (Some name) reply st in
  (exists rest, log st' = log st ++ Fetch (GetTree (Str name)) :: rest
                /\ Forall (fun e => isFetch e = false) rest)
  /\ (unusable reply = true ->
      currentTree st' = currentTree st
      /\ currentSelectedId st' = currentSelectedId st
      /\ container st' = container st
      /\ panel st' = panel st
      /\ caption st' = captionAfter (caption st) CaptionLoadFailed
      /\ log st' = log st ++ [Fetch (GetTree (Str name)); ConsoleError])
  /\ (forall t, reply = Response true (Json t) ->
      currentTree st' = t
      /\ caption st'
         = captionAfter (caption st)
             (match snd (renderSubTree stack (setTree t st)) with
              | None => CaptionLoaded name
              | Some _ => CaptionLoadFailed
              end))
  /\ loadSubTree stack None reply st = st
  /\ loadSubTree stack (Some "") reply st = st.
Proof.
  intros Hname. cbv zeta.
  assert (String.eqb name "" = false) as Hne by (by apply String.eqb_neq).
  unfold loadSubTree. rewrite Hne. split_and!; try done.
  - destruct reply as [|[] [|t]]; simpl;
      try (exists [ConsoleError]; rewrite <- app_assoc; split; [done|by repeat constructor]).
    match goal with |- context [renderSubTree stack ?s] =>
      destruct (renderSubTree_log stack s) as (l & Hl & Hsilent);
      destruct (renderSubTree stack s) as [st2 [e|]] end; simpl in *.
    + exists (l ++ [ConsoleError]). rewrite Hl, <- !app_assoc. split; [done|].
      apply Forall_app. split; [|by repeat constructor].
      eapply Forall_impl; [done|]. intros e'. unfold silent. by destruct (isFetch e').
    + exists l. rewrite Hl, <- !app_assoc. split; [done|].
      eapply Forall_impl; [done|]. intros e'. unfold silent. by destruct (isFetch e').
  - intros Hbad.
    destruct reply as [|[] [|t]]; simpl in *; try done;
      rewrite <- app_assoc; destruct (caption st); by split_and!.
  - intros t ->.
    match goal with |- context [renderSubTree stack ?s] =>
      pose proof (renderSubTree_tree stack s) as Ht;
      pose proof (renderSubTree_caption_kept stack s) as Hcap;
      pose proof (renderSubTree_error_same stack s (setTree t st) eq_refl) as Herr;
      destruct (renderSubTree stack s) as [st2 [e|]] end; simpl in *.
    + rewrite <- Herr by (by destruct (caption st)). rewrite Ht, Hcap.
      by destruct (caption st).
    + rewrite <- Herr by (by destruct (caption st)). rewrite Ht, Hcap.
      by destruct (caption st).
Qed.

Lemma load_sub_tree_outcomes_witness :
  currentTree (loadSubTree 8 (Some "Y")
                 (Response true (Json (Some (mkTree (Str "Y") (Some [sentinelRoot])))))
                 selected2)
  = Some (mkTree (Str "Y") (Some [sentinelRoot]))
  /\ caption (loadSubTree 8 (Some "Y")
                (Response true (Json (Some (mkTree (Str "Y") (Some [sentinelRoot])))))
                selected2)
     = Some CaptionLoadFailed
  /\ currentTree (loadSubTree 8 (Some "Y") (Response false Unreadable) selected2)
     = Some treeX.
Proof.
  assert ("Y" <> "") as Hname by discriminate.
  destruct (load_sub_tree_outcomes 8 "Y"
              (Response true (Json (Some (mkTree (Str "Y") (Some [sentinelRoot])))))
              selected2 Hname) as (_ & _ & Hok & _).
  destruct (Hok _ eq_refl) as [Htree Hcap].
  destruct (load_sub_tree_outcomes 8 "Y" (Response false Unreadable) selected2 Hname)
    as (_ & Hbad & _).
  destruct (Hbad eq_refl) as (Hkept & _).
  split; [exact Htree|]. split; [exact Hcap|exact Hkept].
Defined.

(** X10. "Reset" on a selected node reloads the whole dataset: it does what
    [loadSubTree] does, and when the reload succeeds with the tree container
    in the page, the selection that was to be reset is gone, no card is
    marked and the panel shows its empty notice. *)
Theorem reset_reloads_and_drops_selection (stack : nat) (name : string)
    (t : option Tree) (st : State) :
  is_Some (currentTree st) ->
  truthy (currentSelectedId st) = true ->
  name <> "" ->
  is_Some (container st) ->
  let st' := resetSelectedNode stack (Some name) (Response true (Json t)) st in
  st' = loadSubTree stack (Some name) (Response true (Json t)) st
  /\ currentTree st' = t
  /\ currentSelectedId st' = Null
  /\ panel st' = emptied (panel st)
  /\ Forall (fun c => selected c = false) (allCards st').
Proof.
  intros [t0 Ht0] Hsel Hname Hc. cbv zeta.
  unfold resetSelectedNode. rewrite Ht0, Hsel. split; [done|].
  assert (String.eqb name "" = false) as Hne by (by apply String.eqb_neq).
  unfold loadSubTree. rewrite Hne.
  match goal with |- context [renderSubTree stack ?s] =>
    assert (is_Some (container s)) as Hc'
      by (destruct st as [? ? ? ? [?|] ?]; simpl in *; done);
    destruct (renderSubTree_present stack s Hc') as (Ht & Hs & _ & Hp & _);
    pose proof (renderSubTree_unselected stack s Hc') as Hfresh;
    destruct (renderSubTree stack s) as [st2 [e|]] end; simpl in *.
  - split_and!; try done; rewrite Hp; by destruct st as [? ? ? ? [?|] ?].
  - split_and!; try done; rewrite Hp; by destruct st as [? ? ? ? [?|] ?].
Qed.

Lemma reset_reloads_and_drops_selection_witness :
  currentSelectedId selected2 = Num 2
  /\ currentSelectedId
       (resetSelectedNode 8 (Some "X") (Response true (Json (Some treeX))) selected2)
     = Null.
Proof.
  split; [vm_compute; reflexivity|].
  assert ("X" <> "") as Hname by discriminate.
  assert (is_Some (currentTree selected2)) as Ht by (vm_compute; by eexists).
  assert (is_Some (container selected2)) as Hc by (vm_compute; by eexists).
  assert (truthy (currentSelectedId selected2) = true) as Hsel by (vm_compute; reflexivity).
  by destruct (reset_reloads_and_drops_selection 8 "X" (Some treeX) selected2
                 Ht Hsel Hname Hc) as (_ & _ & ? & _).
Defined.

(** X11. An upload sends the file first.  When its reply is unusable the client
    keeps tree, selection, drawing and panel, the caption reports the
    failure, and no session state is posted.  When the reply carries a
    dataset that renders, the session is then posted with that dataset's
    name and a null selection, as the last request; a rejected post is only
    logged.  A reply of JSON [null] draws the placeholder and ends in the
    failure caption without a post. *)
Theorem upload_outcomes (stack : nat) (fileName : string)
    (reply : Reply (option Tree)) (saved : Reply unit) (st : State) :
  let st' := handleExcelFileSelected stack fileName reply saved st in
  (unusable reply = true ->
   sameClient (setCaption CaptionUploadFailed st) st'
   /\ log st' = log st ++ [Fetch (PostUpload fileName); ConsoleError])
  /\ (forall t, reply = Response true (Json (Some t)) ->
      snd (renderSubTree stack (setTree (Some t) st)) = None ->
      currentTree st' = Some t
      /\ caption st' = captionAfter (caption st) (CaptionUploaded fileName)
      /\ exists drawn,
           log st' = log st ++ Fetch (PostUpload fileName) :: drawn
                     ++ Fetch (PostState (sub_name t) Null)
                        :: (if saved is NetworkFailure then [ConsoleError] else [])
           /\ Forall (fun e => isFetch e = false) drawn)
  /\ (reply = Response true (Json None) ->
      currentTree st' = None
      /\ caption st' = captionAfter (caption st) CaptionUploadFailed
      /\ List.filter isPostState (log st') = List.filter isPostState (log st)
      /\ (is_Some (container st) -> container st' = Some Placeholder)).
Proof.
  cbv zeta. unfold handleExcelFileSelected. split_and!.
  - intros Hbad.
    destruct reply as [|[] [|t]]; simpl in *; try done;
      rewrite <- app_assoc; unfold sameClient;
      destruct st as [? ? ? ? [?|] ?]; simpl; by split_and!.
  - intros t -> Hdone.
    match goal with |- context [renderSubTree stack ?s] =>
      pose proof (renderSubTree_tree stack s) as Ht;
      pose proof (renderSubTree_caption_kept stack s) as Hcap;
      pose proof (renderSubTree_error_same stack s (setTree (Some t) st) eq_refl) as Herr;
      destruct (renderSubTree_log stack s) as (l & Hl & Hsilent);
      destruct (renderSubTree stack s) as [st2 [e|]] end; simpl in *.
    + rewrite Hdone in Herr. by specialize (Herr ltac:(by destruct (caption st))).
    + rewrite Ht. unfold saveSessionState.
      assert (Forall (fun e => isFetch e = false) l) as Hquiet.
      { eapply Forall_impl; [done|]. intros e'. unfold silent. by destruct (isFetch e'). }
      destruct saved; simpl; rewrite ?Hcap, ?Ht, Hl;
        (split_and!; [done|by destruct (caption st)|]);
        exists l; rewrite <- !app_assoc; by split.
  - intros ->.
    match goal with |- context [renderSubTree stack ?s] =>
      pose proof (renderSubTree_tree stack s) as Ht;
      pose proof (renderSubTree_caption_kept stack s) as Hcap;
      pose proof (renderSubTree_log_cases stack s) as Hlog;
      assert (is_Some (container st) -> container (fst (renderSubTree stack s))
                                        = Some Placeholder) as Hdraw
        by (intros Hc; rewrite renderSubTree_content
              by (destruct st as [? ? ? ? [?|] ?]; simpl in *; done);
            by destruct st as [? ? ? ? [?|] ?]);
      destruct (renderSubTree stack s) as [st2 [e|]] end; simpl in *.
    + rewrite Ht. split_and!; [done|rewrite Hcap; by destruct (caption st)| |done].
      destruct Hlog as [-> | ->]; rewrite !List.filter_app; simpl;
        by rewrite ?app_nil_r.
    + rewrite Ht. simpl.
      split_and!; [done|rewrite Hcap; by destruct (caption st)| |done].
      destruct Hlog as [-> | ->]; rewrite !List.filter_app; simpl;
        by rewrite ?app_nil_r.
Qed.

Lemma upload_outcomes_witness :
  (exists drawn,
     log (handleExcelFileSelected 8 "bom.xlsx" (Response true (Json (Some treeX)))
            NetworkFailure selected2)
     = log selected2 ++ Fetch (PostUpload "bom.xlsx") :: drawn
       ++ [Fetch (PostState (Str "X") Null); ConsoleError]
     /\ Forall (fun e => isFetch e = false) drawn)
  /\ log (handleExcelFileSelected 8 "bom.xlsx" NetworkFailure NetworkFailure selected2)
     = log selected2 ++ [Fetch (PostUpload "bom.xlsx"); ConsoleError].
Proof.
  destruct (upload_outcomes 8 "bom.xlsx" (Response true (Json (Some treeX)))
              NetworkFailure selected2) as (_ & Hok & _).
  destruct (Hok treeX eq_refl) as (_ & _ & Hlog); [vm_compute; reflexivity|].
  destruct (upload_outcomes 8 "bom.xlsx" NetworkFailure NetworkFailure selected2)
    as (Hbad & _).
  destruct (Hbad eq_refl) as [_ Hlog'].
  split; [exact Hlog|exact Hlog'].
Defined.

(** ** The two listeners of each button *)

(** The call of [applyAndPersistSelectedNode] is its part before the
    [await] followed by its part after it. *)
Lemma persist_in_two_parts stack form reply st :
  applyAndPersistSelectedNode stack form reply st
  = match persistBegin form st with
    | (st1, Ret (Some nodeId)) => persistResume stack nodeId reply st1
    | (st1, Ret None) => (st1, None)
    | (st1, Throw e) => (st1, Some e)
    end.
Proof.
  unfold applyAndPersistSelectedNode, persistBegin, persistResume.
  destruct (currentTree st) as [t|]; [|done].
  destruct (nullish (currentSelectedId st)); [done|].
  destruct (readPayload form) as [payload|e]; [|done].
  by destruct reply as [|[] [|t']].
Qed.

Lemma persistResume_failed stack nodeId reply st :
  unusable reply = true ->
  fst (persistResume stack nodeId reply st) = st
  /\ is_Some (snd (persistResume stack nodeId reply st)).
Proof. destruct reply as [|[] [|t]]; simpl; try done; by eauto. Qed.









(** X13. One click on the clear button runs both of its listeners.  Two POST
    requests to the session endpoint leave, both with the name of the
    current dataset and no selection; the page is left as one
    [clearSelection] leaves it; and only a rejected first request is logged,
    the reply to the second one being read by nobody. *)
Theorem clear_button_posts_twice (saved posted : Reply unit) (st : State) :
  let st' := clearButtonClick saved posted st in
  let post := Fetch (PostState (sessionName st) Null) in
  sameClient (clearSelection st) st'
  /\ currentSelectedId st' = Null
  /\ log st' = log st ++ post :: post
                 :: (if saved is NetworkFailure then [ConsoleError] else []).
Proof.
  cbv zeta. unfold clearButtonClick.
  destruct (clearSelection_spec st) as (Ht & Hs & Hp & Hcap & Hl).
  set (st1 := clearSelection st) in *.
  assert (sessionName st1 = sessionName st) as Hname
    by (unfold sessionName; by rewrite Ht).
  rewrite Hname.
  set (st2 := emit (Fetch (PostState (sessionName st) Null)) st1).
  destruct (updateDetailPanel_frame (setSelected Null st2)) as (Ht3 & Hs3 & Hc3 & Hcap3 & Hl3).
  pose proof (updateDetailPanel_null (setSelected Null st2) eq_refl) as Hp3.
  set (st3 := updateDetailPanel (setSelected Null st2)) in *.
  assert (sessionName st3 = sessionName st) as Hname3.
  { unfold sessionName. rewrite Ht3. simpl. by rewrite Ht. }
  assert (panel st3 = panel st1) as Hpanel.
  { rewrite Hp3. simpl. by rewrite Hp, emptied_idem. }
  rewrite Hname3.
  assert (sameClient st1 st3) as Hsame.
  { unfold sameClient. rewrite Ht3, Hs3, Hc3, Hcap3, Hpanel. simpl. by rewrite Hs. }
  assert (log st3 = log st ++ [Fetch (PostState (sessionName st) Null)]) as Hlog3.
  { rewrite Hl3. simpl. by rewrite Hl. }
  destruct saved as [|ok body]; simpl; rewrite Hlog3, <- ?app_assoc; simpl;
    (split_and!; [by repeat apply sameClient_emit|done|done]).
Qed.

Lemma allCards_emit e st : allCards (emit e st) = allCards st.
Proof. done. Qed.

Lemma renderSubTree_marks_none stack st :
  Forall (fun c => selected c = false) (allCards st) ->
  Forall (fun c => selected c = false) (allCards (fst (renderSubTree stack st))).
Proof.
  intros H. destruct (container st) as [c|] eqn:Hc.
  - apply renderSubTree_unselected. rewrite Hc. by eexists.
  - by rewrite renderSubTree_absent.
Qed.

(** X14. Whatever the session endpoint and the tree endpoint answer, no card is
    marked as selected when the start-up code has run: [restoreSessionState]
    sets [currentSelectedId] and fills the detail panel, and never calls
    [updateSelectionHighlight]. *)
Theorem restored_selection_is_not_highlighted (stack : nat) (page : Page)
    (r1 : Reply (option Session)) (r2 : Reply (option Tree)) :
  Forall (fun c => selected c = false) (allCards (fst (startup stack page r1 r2))).
Proof.
  unfold startup.
  set (st0 := initialState (hasTreeRoot page) (hasPanel page) (hasCaption page)).
  assert (Forall (fun c => selected c = false) (allCards st0)) as H0.
  { subst st0. unfold allCards, initialState. simpl.
    destruct (hasTreeRoot page); constructor. }
  set (st1 := if hasSubSelect page then emit (Fetch GetSubs) st0 else st0).
  assert (Forall (fun c => selected c = false) (allCards st1)) as H1
    by (subst st1; by destruct (hasSubSelect page)).
  clearbody st1. clear H0 st0.
  destruct (hasApplyButton page && hasClearButton page); simpl; [|done].
  unfold restoreSessionState.
  destruct r1 as [|[] [|[state|]]]; try done.
  destruct (truthy (s_sub_name state)); [|done].
  destruct r2 as [|[] [|t]]; try done.
  match goal with |- context [renderSubTree stack ?s] =>
    pose proof (renderSubTree_marks_none stack s H1) as Hr;
    destruct (renderSubTree stack s) as [st3 [e|]] end; simpl in Hr; [done|].
  destruct (truthy (s_selected_id state)); [|done].
  match goal with |- context [updateDetailPanel ?s] =>
    destruct (updateDetailPanel_frame s) as (_ & _ & Hc & _) end.
  unfold allCards in *. by rewrite Hc.
Qed.




(** ** The geometry pass *)

Section LayoutFacts.

Variable rowRect : list nat -> Rect.
Variable childrenRect : list nat -> Rect.

Lemma adjustWrapper_cards w : forall path,
  cardsOf (adjustWrapper rowRect childrenRect path w) = cardsOf w.
Proof.
  induction w as [d c ws ln IH] using Wrapper_nested_ind. intros path. simpl. f_equal.
  generalize 0%nat as i.
  induction IH as [|x r Hx _ IHr]; intros i; simpl; [done|].
  by rewrite Hx, IHr.
Qed.

Lemma adjustEach_cards ws : forall i,
  cards (adjustEach rowRect childrenRect i ws) = cards ws.
Proof.
  unfold cards. induction ws as [|w r IH]; intros i; simpl; [done|].
  by rewrite adjustWrapper_cards, IH.
Qed.

Lemma span_of_one_row (m : Q) : (Qmax 0 (m - m) == 0)%Q.
Proof. apply Q.max_l. assert (m - m == 0)%Q as -> by ring. apply Qle_refl. Qed.

Lemma adjustWrapper_lines w : forall path,
  linesDrawn (adjustWrapper rowRect childrenRect path w).
Proof.
  induction w as [d c ws ln IH] using Wrapper_nested_ind. intros path. simpl. split.
  - destruct ws as [|x [|y r]]; simpl; [done|apply span_of_one_row|apply Q.le_max_l].
  - generalize 0%nat as i.
    induction IH as [|x r Hx _ IHr]; intros i; simpl; [done|]. split; [apply Hx|apply IHr].
Qed.

Lemma adjustEach_lines ws : forall i,
  Forall linesDrawn (adjustEach rowRect childrenRect i ws).
Proof.
  induction ws as [|w r IH]; intros i; simpl; constructor;
    [apply adjustWrapper_lines|apply IH].
Qed.

Lemma adjustWrapper_Wrap path d c ws ln :
  adjustWrapper rowRect childrenRect path (Wrap d c ws ln)
  = Wrap d c
      (imap (fun i x => adjustWrapper rowRect childrenRect (path ++ [i]) x) ws)
      match ws with
      | [] => ln
      | _ =>
          Span (midpoint (childrenRect path) (rowRect (path ++ [O])))
               (Qmax 0 (midpoint (childrenRect path)
                          (rowRect (path ++ [(length ws - 1)%nat]))
                        - midpoint (childrenRect path) (rowRect (path ++ [O]))))
      end.
Proof.
  simpl. f_equal.
  change (imap (fun i x => adjustWrapper rowRect childrenRect (path ++ [i]) x) ws)
    with (imap (fun j x => adjustWrapper rowRect childrenRect (path ++ [(0 + j)%nat]) x) ws).
  generalize 0%nat as i.
  induction ws as [|x r IH]; intros i; simpl; [done|].
  rewrite Nat.add_0_r. f_equal. rewrite IH. apply imap_ext. intros j y _. simpl.
  by rewrite Nat.add_succ_r.
Qed.

Lemma imap_idem {A : Type} (l : list A) : forall f : nat -> A -> A,
  Forall (fun x => forall i, f i (f i x) = f i x) l ->
  imap f (imap f l) = imap f l.
Proof.
  induction l as [|x r IH]; intros f H; simpl; [done|].
  apply Forall_cons in H as [Hx Hr]. rewrite Hx. f_equal. apply IH.
  eapply Forall_impl; [exact Hr|]. intros y Hy i. apply Hy.
Qed.

Lemma adjustWrapper_idem w : forall path,
  adjustWrapper rowRect childrenRect path (adjustWrapper rowRect childrenRect path w)
  = adjustWrapper rowRect childrenRect path w.
Proof.
  induction w as [d c ws ln IH] using Wrapper_nested_ind. intros path.
  rewrite !adjustWrapper_Wrap. rewrite imap_idem, length_imap.
  - by destruct ws.
  - eapply Forall_impl; [exact IH|]. intros x Hx i. apply Hx.
Qed.

Lemma adjustEach_idem ws : forall i,
  adjustEach rowRect childrenRect i (adjustEach rowRect childrenRect i ws)
  = adjustEach rowRect childrenRect i ws.
Proof.
  induction ws as [|w r IH]; intros i; simpl; [done|].
  by rewrite adjustWrapper_idem, IH.
Qed.

End LayoutFacts.

(** X16. The geometry pass changes nothing but the lines: the cards and their
    marks stay.  Afterwards every children container on the page has a
    connector of non-negative height, of height zero under a single child;
    and a second pass over the same measurements changes nothing. *)
Theorem geometry_pass_draws_a_line_per_children_container
    (rowRect childrenRect : list nat -> Rect) (st : State) :
  let st' := adjustTreeLines rowRect childrenRect st in
  currentTree st' = currentTree st
  /\ currentSelectedId st' = currentSelectedId st
  /\ panel st' = panel st
  /\ caption st' = caption st
  /\ log st' = log st
  /\ allCards st' = allCards st
  /\ (forall ws, container st' = Some (Wrappers ws) -> Forall linesDrawn ws)
  /\ ((forall ws, container st <> Some (Wrappers ws)) -> st' = st)
  /\ adjustTreeLines rowRect childrenRect st' = st'.
Proof.
  cbv zeta. unfold adjustTreeLines, allCards.
  destruct st as [t sel [[|ws]|] p cap lg]; simpl; split_and!; try done.
  - apply adjustEach_cards.
  - intros ws' [= <-]. apply adjustEach_lines.
  - intros H. by destruct (H ws).
  - by rewrite adjustEach_idem.
Qed.
